(** * QueryUP: the mentorship ledger of the single-page application

    A shallow embedding of the state-transition logic of [App] (the React
    root component): the handlers [handleSignup], [acceptQuery],
    [markSessionComplete], [rateSession], [updateUserStats], the pure
    function [computeLevel] and the memoised [leaderboard].

    Conventions of the embedding.
    - A JavaScript array is a [list]; [find], [some], [filter], [map] and
      [reduce] are [List.find], [existsb], [filter], [map] and [fold_left].
    - Integral numbers (xp, level, counts, ratings, timestamps) are [Z].
      [ratingAvg] is a quotient and is an exact rational in canonical form
      ([Qc]), so that [!==] on numbers is Leibniz disequality; so is the
      argument of [computeLevel], which takes any number.
    - A field holding [null] or a value is an [option].
    - [setState (prev => ...)] is a function on [State]; a handler is a
      function from the application (state, current user id, route, auth
      mode) to the next application and the alerts it raised.  The handler
      runs on the rendered state, which is the state the queued updaters
      receive: one actor, one event at a time.
    - [Math.random], [new Date ()], [Date.now ()], the local time zone and
      the collation of [localeCompare] are inputs of the code that reads
      them. *)

From Stdlib Require Import ZArith List Bool Lia String Ascii.
From Stdlib Require Import QArith Qcanon.
From Stdlib Require Import Permutation Sorted OrderedTypeEx.
Import ListNotations.

Local Open Scope string_scope.
Local Open Scope Z_scope.

(** ** Data model *)

Module Role.
Inductive t := student | admin.
End Role.

Module User.
Record t := mk {
  id : string;
  email : string;
  password : string;
  name : string;
  year : option string;
  branch : option string;
  strongSubjects : list string;
  bio : string;
  avatar : option string;
  role : Role.t;
  xp : Z;
  level : Z;
  ratingAvg : Qc;
  ratingCount : Z;
  isBlocked : bool
}.

(** [{ ...u, xp, ratingAvg, ratingCount, level }] *)
Definition with_stats (u : t) (xp' : Z) (avg' : Qc) (count' level' : Z) : t :=
  mk (id u) (email u) (password u) (name u) (year u) (branch u)
     (strongSubjects u) (bio u) (avatar u) (role u)
     xp' level' avg' count' (isBlocked u).

(** [{ ...u, isBlocked: !u.isBlocked }] *)
Definition toggle_blocked (u : t) : t :=
  mk (id u) (email u) (password u) (name u) (year u) (branch u)
     (strongSubjects u) (bio u) (avatar u) (role u)
     (xp u) (level u) (ratingAvg u) (ratingCount u) (negb (isBlocked u)).
End User.

Module PreferredMode.
Inductive t := Either | Online | Offline.
End PreferredMode.

Module QueryStatus.
Inductive t := Open | InProgress.
End QueryStatus.

Module Query.
Record t := mk {
  id : string;
  title : string;
  description : string;
  subjectTags : list string;
  preferredMentorType : string;
  preferredMode : PreferredMode.t;
  timePreference : string;
  status : QueryStatus.t;
  createdAt : Z;
  askerId : string
}.

(** [{ ...qq, status }] *)
Definition with_status (q : t) (st : QueryStatus.t) : t :=
  mk (id q) (title q) (description q) (subjectTags q)
     (preferredMentorType q) (preferredMode q) (timePreference q)
     st (createdAt q) (askerId q).
End Query.

Module Mode.
Inductive t := Online | Offline.
End Mode.

Module SessionStatus.
Inductive t := Confirmed | Completed | NoShow.

Definition eqb (a b : t) : bool :=
  match a, b with
  | Confirmed, Confirmed | Completed, Completed | NoShow, NoShow => true
  | _, _ => false
  end.
End SessionStatus.

Module Session.
Record t := mk {
  id : string;
  queryId : string;
  mentorId : string;
  menteeId : string;
  dateTime : Z;
  mode : Mode.t;
  locationOrLink : string;
  status : SessionStatus.t;
  ratingForMentor : option Z;
  ratingForMentee : option Z
}.

Definition with_status (s : t) (st : SessionStatus.t) : t :=
  mk (id s) (queryId s) (mentorId s) (menteeId s) (dateTime s) (mode s)
     (locationOrLink s) st (ratingForMentor s) (ratingForMentee s).

Definition with_ratingForMentor (s : t) (r : Z) : t :=
  mk (id s) (queryId s) (mentorId s) (menteeId s) (dateTime s) (mode s)
     (locationOrLink s) (status s) (Some r) (ratingForMentee s).

Definition with_ratingForMentee (s : t) (r : Z) : t :=
  mk (id s) (queryId s) (mentorId s) (menteeId s) (dateTime s) (mode s)
     (locationOrLink s) (status s) (ratingForMentor s) (Some r).
End Session.

Module Notification.
Record t := mk {
  id : string;
  userId : string;
  message : string;
  read : bool;
  createdAt : Z
}.
End Notification.

Record State := mkState {
  users : list User.t;
  queries : list Query.t;
  sessions : list Session.t;
  notifications : list Notification.t
}.

(** The state of a first run: [loadState ()] found nothing. *)
Definition initialState : State := mkState [] [] [] [].

(** ** Levels *)

(** An integral number as a JavaScript number. *)
Definition num (z : Z) : Qc := Q2Qc (inject_Z z).

(** [max] of the last tier is [Infinity]. *)
Inductive bound := Fin (z : Z) | Infinity.

(** [x <= b] for a number [x]. *)
Definition le_bound (x : Qc) (b : bound) : bool :=
  match b with
  | Fin m => Qle_bool x (num m)
  | Infinity => true
  end.

Module XpLevel.
Record t := mk { level : Z; min : Z; max : bound }.
End XpLevel.

Definition XP_LEVELS : list XpLevel.t :=
  [ XpLevel.mk 1 0 (Fin 99);
    XpLevel.mk 2 100 (Fin 299);
    XpLevel.mk 3 300 (Fin 699);
    XpLevel.mk 4 700 (Fin 1499);
    XpLevel.mk 5 1500 Infinity ].

(** [xp] is any number, not only an integral one. *)
Definition computeLevel (xp : Qc) : Z :=
  match find (fun l => Qle_bool (num (XpLevel.min l)) xp
                       && le_bound xp (XpLevel.max l))
             XP_LEVELS with
  | Some l => XpLevel.level l
  | None => 1
  end.

(** ** Statistics *)

(** [typeof v === "number"] on a rating field. *)
Definition isNumber (v : option Z) : bool :=
  match v with Some _ => true | None => false end.

(** The numeric value of a rating field in arithmetic: [null] counts 0. *)
Definition toNumber (v : option Z) : Z :=
  match v with Some z => z | None => 0 end.

(** [a === b] on numbers. *)
Definition Qc_eqb (a b : Qc) : bool := Qeq_bool a b.

(** The updater that [updateUserStats (userId)] hands to [setState]. *)
Definition updateUserStats (userId : string) (prev : State) : State :=
  let sessionsAsMentor :=
    filter (fun s =>
              (Session.mentorId s =? userId)%string
              && SessionStatus.eqb (Session.status s) SessionStatus.Completed
              && isNumber (Session.ratingForMentor s))
           (sessions prev) in
  let xp :=
    fold_left (fun acc s => acc + toNumber (Session.ratingForMentor s) * 10)
              sessionsAsMentor 0 in
  let ratingSum :=
    fold_left (fun acc s => acc + toNumber (Session.ratingForMentor s))
              sessionsAsMentor 0 in
  let ratingCount := Z.of_nat (List.length sessionsAsMentor) in
  let ratingAvg :=
    if negb (ratingCount =? 0) then (num ratingSum / num ratingCount)%Qc
    else 0%Qc in
  let level := computeLevel (num xp) in
  mkState
    (map (fun u =>
            if (User.id u =? userId)%string
            then User.with_stats u xp ratingAvg ratingCount level
            else u)
         (users prev))
    (queries prev) (sessions prev) (notifications prev).

(** ** The application *)

Module Route.
Inductive t :=
  landing | auth | home | post | leader | profile | profileView
| sessions | admin.
End Route.

Module AuthMode.
Inductive t := signup | login.
End AuthMode.

Record App := mkApp {
  state : State;
  currentUserId : option string;
  route : Route.t;
  authMode : AuthMode.t
}.

(** What a handler leaves behind: the application and the alerts shown. *)
Record Outcome := mkOutcome {
  app : App;
  alerts : list string
}.

Definition initialApp : App :=
  mkApp initialState None Route.landing AuthMode.signup.

Definition setState (f : State -> State) (a : App) : App :=
  mkApp (f (state a)) (currentUserId a) (route a) (authMode a).

Definition setCurrentUserId (c : option string) (a : App) : App :=
  mkApp (state a) c (route a) (authMode a).

Definition setRoute (r : Route.t) (a : App) : App :=
  mkApp (state a) (currentUserId a) r (authMode a).

Definition setAuthMode (m : AuthMode.t) (a : App) : App :=
  mkApp (state a) (currentUserId a) (route a) m.

(** [state.users.find ((u) => u.id === currentUserId) || null] *)
Definition currentUser (a : App) : option User.t :=
  match currentUserId a with
  | Some c => find (fun u => (User.id u =? c)%string) (users (state a))
  | None => None
  end.

(** *** Strings *)

Definition endsWith (s suffix : string) : bool :=
  let n := String.length s in
  let m := String.length suffix in
  (m <=? n)%nat && (substring (n - m) m s =? suffix)%string.

(** [s.split ("@")[0]] *)
Fixpoint beforeAt (s : string) : string :=
  match s with
  | EmptyString => EmptyString
  | String c rest =>
      if Ascii.eqb c "@"%char then EmptyString else String c (beforeAt rest)
  end.

(** [s.replace (/\./g, " ")] *)
Fixpoint dotsToSpaces (s : string) : string :=
  match s with
  | EmptyString => EmptyString
  | String c rest =>
      String (if Ascii.eqb c "."%char then " "%char else c) (dotsToSpaces rest)
  end.

Definition dquote : string := String (ascii_of_nat 34) EmptyString.

(** *** Alerts *)

Definition alertDomain : string := "Only @pccoepune.org emails are allowed.".
Definition alertExists : string := "User already exists. Please login.".
Definition alertCredentials : string := "Invalid credentials.".
Definition alertBlocked : string := "Your account is blocked. Contact admin.".
Definition alertOwnQuery : string := "You cannot accept your own query.".
Definition alertHasMentor : string := "This query already has a mentor.".
Definition alertAccepted : string :=
  "You are now the mentor for this query! Session auto-scheduled.".

(** The error names of the error taxonomy, by the alert that reports them. *)
Definition ValidationError : list string := [alertDomain].
Definition DuplicateAccountError : list string := [alertExists].
Definition SelfAcceptError : list string := [alertOwnQuery].
Definition AlreadyMentoredError : list string := [alertHasMentor].

(** ** Handlers *)

(** [newId] is the value of [id ()]. *)
Definition handleSignup (email password newId : string) (a : App) : Outcome :=
  if negb (endsWith email "@pccoepune.org") then
    mkOutcome a [alertDomain]
  else
    let exists_ :=
      existsb (fun u => (User.email u =? email)%string) (users (state a)) in
    if exists_ then
      mkOutcome (setAuthMode AuthMode.login a) [alertExists]
    else
      let nameDefault := dotsToSpaces (beforeAt email) in
      let newUser :=
        User.mk newId email password nameDefault None None [] EmptyString None
                (if (List.length (users (state a)) =? 0)%nat
                 then Role.admin else Role.student)
                0 1 0%Qc 0 false in
      let a1 :=
        setState (fun prev =>
                    mkState (users prev ++ [newUser]) (queries prev)
                            (sessions prev) (notifications prev)) a in
      let a2 := setCurrentUserId (Some (User.id newUser)) a1 in
      mkOutcome (setRoute Route.profile a2) [].

Definition handleLogin (email password : string) (a : App) : Outcome :=
  let user :=
    find (fun u => (User.email u =? email)%string
                   && (User.password u =? password)%string)
         (users (state a)) in
  match user with
  | None => mkOutcome a [alertCredentials]
  | Some user =>
      if User.isBlocked user then mkOutcome a [alertBlocked]
      else
        let a1 := setCurrentUserId (Some (User.id user)) a in
        let incomplete :=
          match User.year user with
          | None => true
          | Some y => (y =? EmptyString)%string
          end
          || (List.length (User.strongSubjects user) =? 0)%nat in
        mkOutcome (setRoute (if incomplete then Route.profile else Route.home) a1)
                  []
  end.

Definition handleLogout (a : App) : Outcome :=
  mkOutcome (setRoute Route.landing (setCurrentUserId None a)) [].

(** The object [ProfileSetup] passes to [updateProfile]. *)
Record ProfileUpdates := mkProfileUpdates {
  pu_name : string;
  pu_year : string;
  pu_branch : string;
  pu_bio : string;
  pu_strongSubjects : list string
}.

(** [{ ...u, ...updates }] *)
Definition mergeProfile (u : User.t) (p : ProfileUpdates) : User.t :=
  User.mk (User.id u) (User.email u) (User.password u) (pu_name p)
          (Some (pu_year p)) (Some (pu_branch p)) (pu_strongSubjects p)
          (pu_bio p) (User.avatar u) (User.role u)
          (User.xp u) (User.level u) (User.ratingAvg u) (User.ratingCount u)
          (User.isBlocked u).

Definition updateProfile (updates : ProfileUpdates) (a : App) : Outcome :=
  match currentUser a with
  | None => mkOutcome a []
  | Some cu =>
      mkOutcome
        (setState (fun prev =>
                     mkState
                       (map (fun u =>
                               if (User.id u =? User.id cu)%string
                               then mergeProfile u updates else u)
                            (users prev))
                       (queries prev) (sessions prev) (notifications prev)) a)
        []
  end.

(** The object [PostQueryPage] passes to [createQuery]. *)
Record QueryData := mkQueryData {
  qd_title : string;
  qd_description : string;
  qd_subjectTags : list string;
  qd_preferredMentorType : string;
  qd_preferredMode : PreferredMode.t;
  qd_timePreference : string
}.

(** [newId] is the value of [id ()], [now] of [Date.now ()]. *)
Definition createQuery (data : QueryData) (newId : string) (now : Z) (a : App)
  : Outcome :=
  match currentUser a with
  | None => mkOutcome a []
  | Some cu =>
      let newQuery :=
        Query.mk newId (qd_title data) (qd_description data)
                 (qd_subjectTags data) (qd_preferredMentorType data)
                 (qd_preferredMode data) (qd_timePreference data)
                 QueryStatus.Open now (User.id cu) in
      mkOutcome
        (setState (fun prev =>
                     mkState (users prev) (newQuery :: queries prev)
                             (sessions prev) (notifications prev)) a)
        []
  end.

(** *** Dates

    A [Date] holds a time value: milliseconds since the epoch, in UTC.  The
    local time zone is the function [LocalTZA (t, isUTC)] of the language
    standard: the offset of local time from UTC in milliseconds, at the UTC
    time value [t] when [isUTC] is true, and at the local time value [t]
    otherwise (for a local time that occurs twice or not at all, the offset
    before the change of clocks). *)
Definition msPerSecond : Z := 1000.
Definition msPerMinute : Z := 60000.
Definition msPerHour : Z := 3600000.
Definition msPerDay : Z := 86400000.

Definition Day (t : Z) : Z := t / msPerDay.
Definition HourFromTime (t : Z) : Z := (t / msPerHour) mod 24.
Definition MinFromTime (t : Z) : Z := (t / msPerMinute) mod 60.
Definition SecFromTime (t : Z) : Z := (t / msPerSecond) mod 60.
Definition msFromTime (t : Z) : Z := t mod msPerSecond.

Definition MakeTime (hour min sec ms : Z) : Z :=
  hour * msPerHour + min * msPerMinute + sec * msPerSecond + ms.

Definition MakeDate (day time : Z) : Z := day * msPerDay + time.

Definition LocalTime (LocalTZA : Z -> bool -> Z) (t : Z) : Z :=
  t + LocalTZA t true.

Definition UTC (LocalTZA : Z -> bool -> Z) (t : Z) : Z :=
  t - LocalTZA t false.

(** [d.getHours ()] for a date of time value [t] *)
Definition getHours (LocalTZA : Z -> bool -> Z) (t : Z) : Z :=
  HourFromTime (LocalTime LocalTZA t).

(** The time value of [d] after [d.setHours (hour)] *)
Definition setHours (LocalTZA : Z -> bool -> Z) (t hour : Z) : Z :=
  let local := LocalTime LocalTZA t in
  let date :=
    MakeDate (Day local)
             (MakeTime hour (MinFromTime local) (SecFromTime local)
                       (msFromTime local)) in
  UTC LocalTZA date.

(** What [acceptQuery] reads from its surroundings: the two values of
    [id ()], the instant of [new Date ()] and the value of [Date.now ()],
    both in milliseconds, and the local time zone. *)
Record AcceptEnv := mkAcceptEnv {
  env_sessionId : string;
  env_notificationId : string;
  env_date : Z;
  env_now : Z;
  env_LocalTZA : Z -> bool -> Z
}.

(** [const dateTime = new Date (); dateTime.setHours (dateTime.getHours () + 1)]:
    the time value the session is dated with. *)
Definition scheduledTime (env : AcceptEnv) : Z :=
  let dateTime := env_date env in
  setHours (env_LocalTZA env) dateTime
           (getHours (env_LocalTZA env) dateTime + 1).

Definition modeOf (p : PreferredMode.t) : Mode.t :=
  match p with
  | PreferredMode.Offline => Mode.Offline
  | _ => Mode.Online
  end.

Definition locationOf (p : PreferredMode.t) : string :=
  match p with
  | PreferredMode.Offline => "PCCOE Library"
  | _ => "https://meet.google.com/example"
  end.

Definition acceptedMessage (title mentorName : string) : string :=
  "Your query " ++ dquote ++ title ++ dquote ++ " has been accepted by "
  ++ mentorName ++ ".".

(** The session keeps the time value, of which [toISOString] is the
    rendering. *)
Definition acceptQuery (queryId : string) (env : AcceptEnv) (a : App) : Outcome :=
  match currentUser a with
  | None => mkOutcome a []
  | Some cu =>
      match find (fun q => (Query.id q =? queryId)%string) (queries (state a)) with
      | None => mkOutcome a []
      | Some q =>
          if (Query.askerId q =? User.id cu)%string then
            mkOutcome a [alertOwnQuery]
          else
            let existing :=
              find (fun s => (Session.queryId s =? queryId)%string)
                   (sessions (state a)) in
            match existing with
            | Some _ => mkOutcome a [alertHasMentor]
            | None =>
                let dateTime := scheduledTime env in
                let newSession :=
                  Session.mk (env_sessionId env) queryId (User.id cu)
                             (Query.askerId q) dateTime
                             (modeOf (Query.preferredMode q))
                             (locationOf (Query.preferredMode q))
                             SessionStatus.Confirmed None None in
                mkOutcome
                  (setState
                     (fun prev =>
                        mkState
                          (users prev)
                          (map (fun qq =>
                                  if (Query.id qq =? queryId)%string
                                  then Query.with_status qq QueryStatus.InProgress
                                  else qq)
                               (queries prev))
                          (sessions prev ++ [newSession])
                          (notifications prev ++
                             [Notification.mk
                                (env_notificationId env) (Query.askerId q)
                                (acceptedMessage (Query.title q) (User.name cu))
                                false (env_now env)]))
                     a)
                  [alertAccepted]
            end
      end
  end.

Module SessionRole.
Inductive t := mentor | mentee.
End SessionRole.

Definition markSessionComplete (sessionId : string) (asUser : SessionRole.t)
           (didHappen : bool) (a : App) : Outcome :=
  mkOutcome
    (setState
       (fun prev =>
          mkState (users prev) (queries prev)
                  (map (fun s =>
                          if (Session.id s =? sessionId)%string
                          then Session.with_status s
                                 (if didHappen then SessionStatus.Completed
                                  else SessionStatus.NoShow)
                          else s)
                       (sessions prev))
                  (notifications prev))
       a)
    [].

(** The first updater of [rateSession]. *)
Definition setRating (sessionId : string) (ratingValue : Z) (forMentor : bool)
           (prev : State) : State :=
  let nextSessions :=
    map (fun s =>
           if negb (Session.id s =? sessionId)%string then s
           else if forMentor then Session.with_ratingForMentor s ratingValue
           else Session.with_ratingForMentee s ratingValue)
        (sessions prev) in
  mkState (users prev) (queries prev) nextSessions (notifications prev).

(** The session is looked up in the rendered state; the second updater runs
    on the result of the first. *)
Definition rateSession (sessionId : string) (ratingValue : Z) (forMentor : bool)
           (a : App) : Outcome :=
  let a1 := setState (setRating sessionId ratingValue forMentor) a in
  let s := find (fun s => (Session.id s =? sessionId)%string)
                (sessions (state a)) in
  match s with
  | Some s =>
      if forMentor
      then mkOutcome (setState (updateUserStats (Session.mentorId s)) a1) []
      else mkOutcome a1 []
  | None => mkOutcome a1 []
  end.

Definition toggleBlockUser (userId : string) (a : App) : Outcome :=
  mkOutcome
    (setState
       (fun prev =>
          mkState (map (fun u =>
                          if (User.id u =? userId)%string
                          then User.toggle_blocked u else u)
                       (users prev))
                  (queries prev) (sessions prev) (notifications prev))
       a)
    [].

(** ** Leaderboard *)

(** [Array.prototype.sort] with a comparison function: [x] goes before [y]
    when [comparefn (x, y) < 0], after it when [> 0], and elements that
    compare 0 keep their order (the sort is stable). *)
Section Sort.
Context {A : Type} (comparefn : A -> A -> Qc).

Fixpoint insert (x : A) (l : list A) : list A :=
  match l with
  | [] => [x]
  | y :: l' =>
      if Qle_bool (comparefn x y) 0 then x :: y :: l'
      else y :: insert x l'
  end.

Definition sort (l : list A) : list A := fold_right insert [] l.

(** [x] is not put after [y]. *)
Definition notAfter (x y : A) : Prop := Qle_bool (comparefn x y) 0 = true.
End Sort.

(** [x] is listed before an occurrence of [y]. *)
Inductive listedBefore {A : Type} (x y : A) : list A -> Prop :=
| listed_here (l : list A) : In y l -> listedBefore x y (x :: l)
| listed_later (z : A) (l : list A) :
    listedBefore x y l -> listedBefore x y (z :: l).

Definition completedAsMentor (st : State) (u : User.t) : Z :=
  Z.of_nat
    (List.length
       (filter (fun s =>
                  (Session.mentorId s =? User.id u)%string
                  && SessionStatus.eqb (Session.status s) SessionStatus.Completed)
               (sessions st))).

Section Leaderboard.
(** [a.localeCompare (b)]: the collation of the default locale of the
    runtime, a number that is negative, zero or positive. *)
Variable localeCompare : string -> string -> Z.

Definition compareUsers (st : State) (a b : User.t) : Qc :=
  if negb (User.xp b =? User.xp a) then num (User.xp b - User.xp a)
  else if negb (Qc_eqb (User.ratingAvg b) (User.ratingAvg a))
  then (User.ratingAvg b - User.ratingAvg a)%Qc
  else
    let aSessions := completedAsMentor st a in
    let bSessions := completedAsMentor st b in
    if negb (bSessions =? aSessions) then num (bSessions - aSessions)
    else num (localeCompare (User.id a) (User.id b)).

Definition leaderboard (st : State) : list User.t :=
  sort (compareUsers st) (users st).
End Leaderboard.

(** What the language standard requires of [localeCompare]: a consistent
    comparison function on all strings.  Of that, what the ranking needs:
    of two strings one is not after the other, and not-after is
    transitive. *)
Definition consistentCollation (localeCompare : string -> string -> Z) : Prop :=
  (forall a b, localeCompare a b <= 0 \/ localeCompare b a <= 0) /\
  (forall a b c, localeCompare a b <= 0 -> localeCompare b c <= 0 ->
                 localeCompare a c <= 0).

(** Two collations.  The first orders strings by their character codes. *)
Definition codeUnitOrder (a b : string) : Z :=
  match String.compare a b with
  | Lt => -1
  | Eq => 0
  | Gt => 1
  end.

(** The second honours a canonical equivalence, as the standard requires
    of [localeCompare]: the letter e followed by the combining acute accent
    (bytes 204, 129) counts as the precomposed e with acute (bytes 195,
    169); otherwise it orders by character codes. *)
Fixpoint composeAcute (s : string) : string :=
  match s with
  | EmptyString => EmptyString
  | String c tail =>
      match tail with
      | String c1 (String c2 rest) =>
          if Ascii.eqb c "e"%char && (nat_of_ascii c1 =? 204)%nat
             && (nat_of_ascii c2 =? 129)%nat
          then String (ascii_of_nat 195)
                      (String (ascii_of_nat 169) (composeAcute rest))
          else String c (composeAcute tail)
      | _ => String c (composeAcute tail)
      end
  end.

Definition canonicalOrder (a b : string) : Z :=
  codeUnitOrder (composeAcute a) (composeAcute b).

(** ** What the sessions page offers *)

Definition isCompleted (s : Session.t) : bool :=
  SessionStatus.eqb (Session.status s) SessionStatus.Completed.

Definition isFuture (now : Z) (s : Session.t) : bool :=
  (now <? Session.dateTime s)
  && SessionStatus.eqb (Session.status s) SessionStatus.Confirmed.

Definition myRating (role : SessionRole.t) (s : Session.t) : option Z :=
  match role with
  | SessionRole.mentor => Session.ratingForMentee s
  | SessionRole.mentee => Session.ratingForMentor s
  end.

(** The card of [s] is rendered for the role: [asMentor] or [asMentee]. *)
Definition cardShown (myId : string) (role : SessionRole.t) (s : Session.t)
  : bool :=
  match role with
  | SessionRole.mentor => (Session.mentorId s =? myId)%string
  | SessionRole.mentee => (Session.menteeId s =? myId)%string
  end.

(** [!isFuture && !isCompleted]: the two outcome buttons. *)
Definition offersOutcome (now : Z) (s : Session.t) : bool :=
  negb (isFuture now s) && negb (isCompleted s).

(** [isCompleted && myRating == null]: the five rating buttons. *)
Definition offersRating (role : SessionRole.t) (s : Session.t) : bool :=
  isCompleted s && negb (isNumber (myRating role s)).

Definition ratingButtons : list Z := [1; 2; 3; 4; 5].

(** [role === "mentee"]: the mentee rates the mentor. *)
Definition ratesMentor (role : SessionRole.t) : bool :=
  match role with
  | SessionRole.mentee => true
  | SessionRole.mentor => false
  end.

(** ** Events *)

Inductive Event :=
| EvSignup (email password newId : string)
| EvLogin (email password : string)
| EvLogout
| EvUpdateProfile (updates : ProfileUpdates)
| EvCreateQuery (data : QueryData) (newId : string) (now : Z)
| EvAcceptQuery (queryId : string) (env : AcceptEnv)
| EvMarkSession (sessionId : string) (role : SessionRole.t) (didHappen : bool)
| EvRateSession (sessionId : string) (ratingValue : Z) (forMentor : bool)
| EvToggleBlock (userId : string)
| EvSetRoute (r : Route.t)
| EvReload.

Definition handle (e : Event) (a : App) : Outcome :=
  match e with
  | EvSignup email password newId => handleSignup email password newId a
  | EvLogin email password => handleLogin email password a
  | EvLogout => handleLogout a
  | EvUpdateProfile updates => updateProfile updates a
  | EvCreateQuery data newId now => createQuery data newId now a
  | EvAcceptQuery queryId env => acceptQuery queryId env a
  | EvMarkSession sessionId role didHappen =>
      markSessionComplete sessionId role didHappen a
  | EvRateSession sessionId ratingValue forMentor =>
      rateSession sessionId ratingValue forMentor a
  | EvToggleBlock userId => toggleBlockUser userId a
  | EvSetRoute r => mkOutcome (setRoute r a) []
  | EvReload => mkOutcome (mkApp (state a) None Route.landing AuthMode.signup) []
  end.

(** The events the rendered pages can raise at time [now].  The session
    events come from the buttons of a session card; an accepted query takes
    a session id that no session has yet. *)
Definition offered (now : Z) (a : App) (e : Event) : Prop :=
  match e with
  | EvMarkSession sessionId role _ =>
      exists me s,
        currentUser a = Some me /\ In s (sessions (state a)) /\
        cardShown (User.id me) role s = true /\
        offersOutcome now s = true /\ sessionId = Session.id s
  | EvRateSession sessionId ratingValue forMentor =>
      exists me s role,
        currentUser a = Some me /\ In s (sessions (state a)) /\
        cardShown (User.id me) role s = true /\
        offersRating role s = true /\ In ratingValue ratingButtons /\
        sessionId = Session.id s /\ forMentor = ratesMentor role
  | EvAcceptQuery _ env =>
      forall s, In s (sessions (state a)) -> Session.id s <> env_sessionId env
  | _ => True
  end.

Inductive reachable : App -> Prop :=
| reach_init : reachable initialApp
| reach_step (a : App) (now : Z) (e : Event) :
    reachable a -> offered now a e -> reachable (app (handle e a)).

(** ** The statistics in the words of the specification

    The ratings that count for [userId]: those of the sessions with
    [mentorId = userId], status Completed and a set [ratingForMentor]. *)
Definition mentorRatings (userId : string) (ss : list Session.t) : list Z :=
  flat_map
    (fun s =>
       match Session.ratingForMentor s, Session.status s with
       | Some r, SessionStatus.Completed =>
           if (Session.mentorId s =? userId)%string then [r] else []
       | _, _ => []
       end)
    ss.

Definition sumZ (l : list Z) : Z := fold_right Z.add 0 l.

(** The statistics fields of a user. *)
Record Stats := mkStats {
  st_xp : Z;
  st_ratingAvg : Qc;
  st_ratingCount : Z;
  st_level : Z
}.

Definition statsOf (u : User.t) : Stats :=
  mkStats (User.xp u) (User.ratingAvg u) (User.ratingCount u) (User.level u).

(** RecomputeStats in the words of the specification: xp is the sum of
    rating x 10, ratingCount the number of ratings that count, ratingAvg
    their mean (0 when there is none), level the tier of xp. *)
Definition recomputed (userId : string) (ss : list Session.t) : Stats :=
  let rs := mentorRatings userId ss in
  let count := Z.of_nat (List.length rs) in
  mkStats (sumZ (map (fun r => r * 10) rs))
          (if 0 <? count then (num (sumZ rs) / num count)%Qc else 0%Qc)
          count
          (computeLevel (num (sumZ (map (fun r => r * 10) rs)))).

(** Identifiers are unique within a collection. *)
Definition uniqueIds {A : Type} (key : A -> string) (l : list A) : Prop :=
  NoDup (map key l).

(** ** The leaderboard order in the words of the specification

    The number of sessions with [mentorId = userId] and status Completed. *)
Fixpoint completedMentorSessions (userId : string) (ss : list Session.t) : Z :=
  match ss with
  | [] => 0
  | s :: rest =>
      match Session.status s with
      | SessionStatus.Completed =>
          if (Session.mentorId s =? userId)%string
          then 1 + completedMentorSessions userId rest
          else completedMentorSessions userId rest
      | _ => completedMentorSessions userId rest
      end
  end.

(** [a] ranks before [b]: more xp; or the same xp and a higher ratingAvg; or
    the same of both and more completed mentor sessions; or the same of all
    three and an id that the collation does not put after. *)
Definition ranksBefore (localeCompare : string -> string -> Z) (st : State)
           (a b : User.t) : Prop :=
  User.xp b < User.xp a \/
  User.xp a = User.xp b /\
  ((User.ratingAvg b < User.ratingAvg a)%Qc \/
   User.ratingAvg a = User.ratingAvg b /\
   (completedMentorSessions (User.id b) (sessions st)
    < completedMentorSessions (User.id a) (sessions st) \/
    completedMentorSessions (User.id a) (sessions st)
    = completedMentorSessions (User.id b) (sessions st) /\
    localeCompare (User.id a) (User.id b) <= 0)).

(** Tied on the three metrics. *)
Definition tied (st : State) (a b : User.t) : Prop :=
  User.xp a = User.xp b /\
  User.ratingAvg a = User.ratingAvg b /\
  completedMentorSessions (User.id a) (sessions st)
  = completedMentorSessions (User.id b) (sessions st).

(** The collation tells the strings of [ids] apart: two of them that it
    puts in both orders are the same string. *)
Definition separates (localeCompare : string -> string -> Z)
           (ids : list string) : Prop :=
  forall x y, In x ids -> In y ids ->
              localeCompare x y <= 0 -> localeCompare y x <= 0 -> x = y.

(** ** The rating invariant

    A rating field is unset or one of 1..5. *)
Definition ratingInRange (v : option Z) : Prop :=
  match v with
  | None => True
  | Some r => 1 <= r <= 5
  end.

(** Both rating fields are in range, and a session that carries a rating is
    Completed. *)
Definition ratingsWellFormed (s : Session.t) : Prop :=
  ratingInRange (Session.ratingForMentor s) /\
  ratingInRange (Session.ratingForMentee s) /\
  (Session.status s <> SessionStatus.Completed ->
   Session.ratingForMentor s = None /\ Session.ratingForMentee s = None).

(** [s'] is the session [s] a step later: each rating that was set is still
    there, with the same value. *)
Definition keepsRatings (s s' : Session.t) : Prop :=
  Session.id s' = Session.id s /\
  (forall r, Session.ratingForMentor s = Some r ->
             Session.ratingForMentor s' = Some r) /\
  (forall r, Session.ratingForMentee s = Some r ->
             Session.ratingForMentee s' = Some r).

(** The invariant of the session collection. *)
Definition ratingsInvariant (ss : list Session.t) : Prop :=
  Forall ratingsWellFormed ss /\ uniqueIds Session.id ss.

(** What an event can do to the session collection. *)
Inductive sessionsChange (a : App) : Event -> list Session.t -> Prop :=
| change_none e :
    sessionsChange a e (sessions (state a))
| change_accept queryId env mentorId menteeId dateTime mode location :
    sessionsChange a (EvAcceptQuery queryId env)
      (sessions (state a) ++
         [Session.mk (env_sessionId env) queryId mentorId menteeId dateTime
                     mode location SessionStatus.Confirmed None None])
| change_mark sessionId role didHappen :
    sessionsChange a (EvMarkSession sessionId role didHappen)
      (map (fun s =>
              if (Session.id s =? sessionId)%string
              then Session.with_status s
                     (if didHappen then SessionStatus.Completed
                      else SessionStatus.NoShow)
              else s)
           (sessions (state a)))
| change_rate sessionId r forMentor :
    sessionsChange a (EvRateSession sessionId r forMentor)
      (map (fun s =>
              if (Session.id s =? sessionId)%string
              then (if forMentor then Session.with_ratingForMentor s r
                    else Session.with_ratingForMentee s r)
              else s)
           (sessions (state a))).

(** ** Sample data

    Alice (the first account) and Bob; Bob asks a question that Alice, who
    is logged in, can accept. *)

Definition alice : User.t :=
  User.mk "u1" "alice@pccoepune.org" "pw" "alice" (Some "3rd Year") (Some "IT")
          ["DSA"] EmptyString None Role.admin 0 1 0%Qc 0 false.

Definition bob : User.t :=
  User.mk "u2" "bob@pccoepune.org" "pw" "bob" (Some "1st Year") (Some "CS")
          ["OS"] EmptyString None Role.student 0 1 0%Qc 0 false.

Definition bobsQuery : Query.t :=
  Query.mk "q1" "Graphs" "How does BFS work?" ["DSA"] "Any"
           PreferredMode.Offline "Evening" QueryStatus.Open 1000 "u2".

Definition sampleState : State := mkState [alice; bob] [bobsQuery] [] [].

Definition aliceApp : App :=
  mkApp sampleState (Some "u1") Route.home AuthMode.signup.

(** Carol, who has completed two sessions as a mentor that nobody rated,
    next to Alice and Bob with one each. *)
Definition carol : User.t :=
  User.mk "u3" "carol@pccoepune.org" "pw" "carol" (Some "2nd Year") (Some "CS")
          ["Maths"] EmptyString None Role.student 0 1 0%Qc 0 false.

Definition unratedSession (sessionId mentorId menteeId : string) : Session.t :=
  Session.mk sessionId "q0" mentorId menteeId 0 Mode.Online
             "https://meet.google.com/example" SessionStatus.Completed
             None None.

Definition mentorsState : State :=
  mkState [bob; alice; carol] []
          [unratedSession "s1" "u1" "u2"; unratedSession "s2" "u2" "u1";
           unratedSession "s3" "u3" "u1"; unratedSession "s4" "u3" "u2"]
          [].

(** Two users whose ids are different strings that are canonically
    equivalent: the precomposed e with acute, and e followed by the
    combining acute accent. *)
Definition precomposedId : string :=
  String (ascii_of_nat 195) (String (ascii_of_nat 169) EmptyString).

Definition combiningId : string :=
  String "e" (String (ascii_of_nat 204) (String (ascii_of_nat 129) EmptyString)).

Definition precomposedUser : User.t :=
  User.mk precomposedId "p@pccoepune.org" "pw" "p" None None [] EmptyString
          None Role.admin 0 1 0%Qc 0 false.

Definition combiningUser : User.t :=
  User.mk combiningId "c@pccoepune.org" "pw" "c" None None [] EmptyString
          None Role.student 0 1 0%Qc 0 false.

Definition equivalentIdsState : State :=
  mkState [precomposedUser; combiningUser] [] [] [].

(** A zone that keeps UTC. *)
Definition utcZone : Z -> bool -> Z := fun _ _ => 0.

(** The Eastern zone of the United States around the end of daylight
    saving time on 3 November 2024: four hours behind UTC until 06:00 UTC,
    five from then on; on the local clock, four until 02:00 and five from
    then on. *)
Definition easternZone : Z -> bool -> Z :=
  fun t isUTC =>
    if isUTC
    then (if t <? 1730613600000 then -14400000 else -18000000)
    else (if t <? 1730599200000 then -14400000 else -18000000).

Definition sampleEnv : AcceptEnv := mkAcceptEnv "s1" "n1" 5000 5001 utcZone.

(** An acceptance at 01:30 local time on that day, half an hour before the
    clocks go back. *)
Definition fallBackEnv : AcceptEnv :=
  mkAcceptEnv "s1" "n1" 1730611800000 1730611800001 easternZone.

(** After Alice accepted Bob's query. *)
Definition acceptedApp : App := app (acceptQuery "q1" sampleEnv aliceApp).

(** The same state with Bob logged in. *)
Definition acceptedAppBob : App := setCurrentUserId (Some "u2") acceptedApp.

(** The session the acceptance created, and its state once completed. *)
Definition sampleSession : Session.t :=
  Session.mk "s1" "q1" "u1" "u2" 3605000 Mode.Offline "PCCOE Library"
             SessionStatus.Confirmed None None.

Definition completedApp : App :=
  app (markSessionComplete "s1" SessionRole.mentor true acceptedApp).

(** Alice's session after Bob, the mentee, rated her 5. *)
Definition ratedApp : App := app (rateSession "s1" 5 true completedApp).

(** A run of the application from its first start: Alice and Bob sign up,
    Bob asks, Alice accepts and later marks the session completed, Bob
    rates her 5. *)
Definition sampleEvents : list (Z * Event) :=
  [ (100, EvSignup "alice@pccoepune.org" "pw" "u1");
    (200, EvLogout);
    (300, EvSignup "bob@pccoepune.org" "pw" "u2");
    (400, EvCreateQuery
            (mkQueryData "Graphs" "How does BFS work?" ["DSA"] "Any"
                         PreferredMode.Offline "Evening") "q1" 400);
    (500, EvLogin "alice@pccoepune.org" "pw");
    (5000, EvAcceptQuery "q1" sampleEnv);
    (4000000, EvMarkSession "s1" SessionRole.mentor true);
    (4000100, EvLogin "bob@pccoepune.org" "pw");
    (4000200, EvRateSession "s1" 5 true) ].

Definition runEvents (es : list (Z * Event)) (a : App) : App :=
  fold_left (fun a e => app (handle (snd e) a)) es a.

Definition sampleRun : App := runEvents sampleEvents initialApp.

(** ** What an event can do to the state

    The state after [handle e a], by the branch the handler takes. *)
Inductive stateChange (a : App) : Event -> State -> Prop :=
| sc_none e :
    stateChange a e (state a)
| sc_signup email password newId :
    endsWith email "@pccoepune.org" = true ->
    (forall u, In u (users (state a)) -> User.email u <> email) ->
    stateChange a (EvSignup email password newId)
      (mkState
         (users (state a) ++
            [User.mk newId email password (dotsToSpaces (beforeAt email))
                     None None [] EmptyString None
                     (if (List.length (users (state a)) =? 0)%nat
                      then Role.admin else Role.student)
                     0 1 0%Qc 0 false])
         (queries (state a)) (sessions (state a)) (notifications (state a)))
| sc_profile updates cu :
    currentUser a = Some cu ->
    stateChange a (EvUpdateProfile updates)
      (mkState
         (map (fun u =>
                 if (User.id u =? User.id cu)%string
                 then mergeProfile u updates else u)
              (users (state a)))
         (queries (state a)) (sessions (state a)) (notifications (state a)))
| sc_create data newId now cu :
    currentUser a = Some cu ->
    stateChange a (EvCreateQuery data newId now)
      (mkState
         (users (state a))
         (Query.mk newId (qd_title data) (qd_description data)
                   (qd_subjectTags data) (qd_preferredMentorType data)
                   (qd_preferredMode data) (qd_timePreference data)
                   QueryStatus.Open now (User.id cu)
          :: queries (state a))
         (sessions (state a)) (notifications (state a)))
| sc_accept queryId env cu q :
    currentUser a = Some cu ->
    find (fun x => (Query.id x =? queryId)%string) (queries (state a)) = Some q ->
    Query.askerId q <> User.id cu ->
    (forall s, In s (sessions (state a)) -> Session.queryId s <> queryId) ->
    stateChange a (EvAcceptQuery queryId env)
      (mkState
         (users (state a))
         (map (fun qq =>
                 if (Query.id qq =? queryId)%string
                 then Query.with_status qq QueryStatus.InProgress else qq)
              (queries (state a)))
         (sessions (state a) ++
            [Session.mk (env_sessionId env) queryId (User.id cu)
                        (Query.askerId q) (scheduledTime env)
                        (modeOf (Query.preferredMode q))
                        (locationOf (Query.preferredMode q))
                        SessionStatus.Confirmed None None])
         (notifications (state a) ++
            [Notification.mk (env_notificationId env) (Query.askerId q)
                             (acceptedMessage (Query.title q) (User.name cu))
                             false (env_now env)]))
| sc_mark sessionId role didHappen :
    stateChange a (EvMarkSession sessionId role didHappen)
      (mkState
         (users (state a)) (queries (state a))
         (map (fun s =>
                 if (Session.id s =? sessionId)%string
                 then Session.with_status s
                        (if didHappen then SessionStatus.Completed
                         else SessionStatus.NoShow)
                 else s)
              (sessions (state a)))
         (notifications (state a)))
| sc_rate sessionId r forMentor :
    (forMentor = true ->
     forall s, In s (sessions (state a)) -> Session.id s <> sessionId) ->
    stateChange a (EvRateSession sessionId r forMentor)
      (setRating sessionId r forMentor (state a))
| sc_rate_mentor sessionId r s :
    find (fun x => (Session.id x =? sessionId)%string) (sessions (state a))
      = Some s ->
    stateChange a (EvRateSession sessionId r true)
      (updateUserStats (Session.mentorId s)
                       (setRating sessionId r true (state a)))
| sc_toggle userId :
    stateChange a (EvToggleBlock userId)
      (mkState
         (map (fun u =>
                 if (User.id u =? userId)%string
                 then User.toggle_blocked u else u)
              (users (state a)))
         (queries (state a)) (sessions (state a)) (notifications (state a))).

(** ** Runs in which [id ()] never repeats itself

    The identifier a sign-up or a new query draws is not in use. *)
Definition freshIds (a : App) (e : Event) : Prop :=
  match e with
  | EvSignup _ _ newId =>
      forall u, In u (users (state a)) -> User.id u <> newId
  | EvCreateQuery _ newId _ =>
      forall q, In q (queries (state a)) -> Query.id q <> newId
  | _ => True
  end.

Inductive reachableFresh : App -> Prop :=
| fresh_init : reachableFresh initialApp
| fresh_step (a : App) (now : Z) (e : Event) :
    reachableFresh a -> offered now a e -> freshIds a e ->
    reachableFresh (app (handle e a)).

(** ** Sane statistics

    The level is the tier of the xp and lies in 1..5, the xp is a multiple
    of 10, and each counted rating gave between 10 and 50 xp. *)
Definition statsSane (x : Stats) : Prop :=
  st_level x = computeLevel (num (st_xp x)) /\
  1 <= st_level x <= 5 /\
  0 <= st_ratingCount x /\
  (exists k, st_xp x = 10 * k) /\
  10 * st_ratingCount x <= st_xp x <= 50 * st_ratingCount x.

(** ** References between the collections

    User and query ids are unique; the asker of each query and the mentor of
    each session are users; each session references a query by id, and its
    mentee is the asker of that query. *)
Definition userIds (st : State) : list string := map User.id (users st).

Definition queryKeys (st : State) : list (string * string) :=
  map (fun q => (Query.id q, Query.askerId q)) (queries st).

Definition referencesIntact (st : State) : Prop :=
  NoDup (userIds st) /\
  NoDup (map Query.id (queries st)) /\
  incl (map Query.askerId (queries st)) (userIds st) /\
  incl (map Session.mentorId (sessions st)) (userIds st) /\
  incl (map (fun s => (Session.queryId s, Session.menteeId s)) (sessions st))
       (queryKeys st).

(** ** The home feed *)

(** The filters of the feed, as the page keeps them. *)
Record FeedFilters := mkFeedFilters {
  subjectFilter : string;
  yearFilter : string;
  onlyFresh : bool;
  search : string
}.

(** The filters of a page just opened. *)
Definition noFilters : FeedFilters :=
  mkFeedFilters EmptyString EmptyString false EmptyString.

(** A string in a condition: the empty string counts as false. *)
Definition nonEmpty (s : string) : bool := negb (s =? EmptyString)%string.

(** [l.includes (x)] on an array of strings. *)
Definition arrayIncludes (l : list string) (x : string) : bool :=
  existsb (fun y => (y =? x)%string) l.

(** [s.includes (sub)] on strings. *)
Fixpoint stringIncludes (s sub : string) : bool :=
  prefix sub s
  || match s with
     | EmptyString => false
     | String _ rest => stringIncludes rest sub
     end.

Definition isOpen (q : Query.t) : bool :=
  match Query.status q with
  | QueryStatus.Open => true
  | QueryStatus.InProgress => false
  end.

Section HomeFeed.
(** [String.prototype.toLowerCase], which the search applies to both
    sides. *)
Variable toLowerCase : string -> string.

(** The callback of [queries.filter] *)
Definition feedFilter (f : FeedFilters) (st : State) (q : Query.t) : bool :=
  if negb (isOpen q) then false
  else if nonEmpty (subjectFilter f)
          && negb (arrayIncludes (Query.subjectTags q) (subjectFilter f))
  then false
  else if nonEmpty (yearFilter f)
          && match find (fun u => (User.id u =? Query.askerId q)%string)
                        (users st) with
             | None => true
             | Some asker =>
                 match User.year asker with
                 | Some y => negb (y =? yearFilter f)%string
                 | None => true
                 end
             end
  then false
  else if onlyFresh f
          && existsb (fun s => (Session.queryId s =? Query.id q)%string)
                     (sessions st)
  then false
  else if nonEmpty (search f)
          && negb (stringIncludes
                     (toLowerCase (Query.title q ++ " " ++ Query.description q))
                     (toLowerCase (search f)))
  then false
  else true.

Definition subjectMatch (cu : User.t) (q : Query.t) : bool :=
  existsb (fun t => arrayIncludes (User.strongSubjects cu) t)
          (Query.subjectTags q).

(** priority: subject match, recency *)
Definition feedCompare (cu : User.t) (a b : Query.t) : Qc :=
  let aMatch := subjectMatch cu a in
  let bMatch := subjectMatch cu b in
  if negb (Bool.eqb aMatch bMatch) then (if aMatch then num (-1) else num 1)
  else num (Query.createdAt b - Query.createdAt a).

Definition homeFeed (cu : User.t) (f : FeedFilters) (st : State)
  : list Query.t :=
  let myId := User.id cu in
  let queries :=
    filter (fun q => negb (Query.askerId q =? myId)%string) (queries st) in
  let filtered := filter (feedFilter f st) queries in
  sort (feedCompare cu) filtered.
End HomeFeed.

(** The order of the feed in words: a query that matches a strong subject
    of the reader before one that does not; of two that agree on that, the
    one created later first. *)
Definition feedBefore (cu : User.t) (a b : Query.t) : Prop :=
  (subjectMatch cu a = true /\ subjectMatch cu b = false) \/
  (subjectMatch cu a = subjectMatch cu b /\
   Query.createdAt b <= Query.createdAt a).

(** The sample run up to Alice's login, Bob's query still open. *)
Definition beforeAccept : App := runEvents (firstn 5 sampleEvents) initialApp.

(** Three open questions of Bob, the older two about a subject Alice is
    strong in. *)
Definition feedState : State :=
  mkState [alice; bob]
          [ Query.mk "qa" "Graphs" "BFS" ["DSA"] "Any" PreferredMode.Either
                     "Evening" QueryStatus.Open 10 "u2";
            Query.mk "qb" "Paging" "TLB" ["OS"] "Any" PreferredMode.Either
                     "Evening" QueryStatus.Open 30 "u2";
            Query.mk "qc" "Heaps" "Heapify" ["DSA"] "Any" PreferredMode.Either
                     "Evening" QueryStatus.Open 20 "u2" ]
          [] [].

(** ** The profile page and the post page *)

(** [toggleSubject] of [ProfileSetup] *)
Definition toggleSubject (subj : string) (prev : list string) : list string :=
  if arrayIncludes prev subj
  then filter (fun s => negb (s =? subj)%string) prev
  else prev ++ [subj].

(** [toggleTag] of [PostQueryPage] *)
Definition toggleTag (tag : string) (prev : list string) : list string :=
  if arrayIncludes prev tag
  then filter (fun t => negb (t =? tag)%string) prev
  else prev ++ [tag].

(** [handleAddCustom] of [ProfileSetup], on the trimmed text [val]: what
    becomes of the chosen subjects. *)
Definition handleAddCustom (val : string) (strongSubjects : list string)
  : list string :=
  if negb (nonEmpty val) then strongSubjects
  else if negb (arrayIncludes strongSubjects val)
       then strongSubjects ++ [val]
       else strongSubjects.

Definition alertProfileRequired : string :=
  "Name, Year and at least 1 strong subject are required.".
Definition alertQueryRequired : string :=
  "Title, description and at least 1 subject tag are required.".
Definition alertLaunched : string := "Query launched! 🚀".

(** [handleSave] of [ProfileSetup]; [onDone] is [() => setRoute ("home")]. *)
Definition handleSave (form : ProfileUpdates) (a : App) : Outcome :=
  if negb (nonEmpty (pu_name form)) || negb (nonEmpty (pu_year form))
     || (List.length (pu_strongSubjects form) =? 0)%nat
  then mkOutcome a [alertProfileRequired]
  else
    let saved := updateProfile form a in
    mkOutcome (setRoute Route.home (app saved)) (alerts saved).

(** [handleSubmit] of [PostQueryPage] *)
Definition handleSubmit (data : QueryData) (newId : string) (now : Z) (a : App)
  : Outcome :=
  if negb (nonEmpty (qd_title data)) || negb (nonEmpty (qd_description data))
     || (List.length (qd_subjectTags data) =? 0)%nat
  then mkOutcome a [alertQueryRequired]
  else
    let created := createQuery data newId now a in
    mkOutcome (setRoute Route.home (app created))
              (alerts created ++ [alertLaunched]).

(** * Properties *)

(** ** Generic facts *)

Lemma SessionStatus_eqb_eq a b : SessionStatus.eqb a b = true <-> a = b.
Proof. destruct a, b; simpl; split; congruence. Qed.

Lemma Forall2_map_self {A : Type} (R : A -> A -> Prop) (f : A -> A) (l : list A) :
  (forall x, In x l -> R x (f x)) -> Forall2 R l (map f l).
Proof.
  induction l as [|x l IH]; intros H; simpl; constructor.
  - apply H; now left.
  - apply IH; intros y Hy; apply H; now right.
Qed.

Lemma find_unique {A : Type} (key : A -> string) (l : list A) (x : A) :
  uniqueIds key l -> In x l ->
  find (fun y => (key y =? key x)%string) l = Some x.
Proof.
  unfold uniqueIds.
  induction l as [|y l IH]; simpl; intros Hnd Hin; [contradiction|].
  inversion Hnd as [|? ? Hnotin Hnd']; subst.
  destruct Hin as [->|Hin].
  - now rewrite String.eqb_refl.
  - destruct (String.eqb_spec (key y) (key x)) as [E|E].
    + exfalso; apply Hnotin; rewrite E; now apply in_map.
    + now apply IH.
Qed.

Lemma find_none_iff {A : Type} (p : A -> bool) (l : list A) :
  find p l = None <-> forall x, In x l -> p x = false.
Proof.
  split; [apply find_none|].
  induction l as [|y l IH]; simpl; intros H; [reflexivity|].
  rewrite (H y (or_introl eq_refl)); apply IH; intros x Hx; apply H; now right.
Qed.

(** ** Levels *)

Lemma Qle_bool_inject (a b : Z) :
  Qle_bool (inject_Z a) (inject_Z b) = (a <=? b).
Proof. unfold Qle_bool, inject_Z; cbn; now rewrite !Z.mul_1_r. Qed.

Lemma num_leb (a b : Z) : Qle_bool (num a) (num b) = (a <=? b).
Proof.
  unfold num; cbn [this Q2Qc].
  now rewrite !Qred_correct, Qle_bool_inject.
Qed.

(** The tier table in closed form, for any number. *)
Lemma computeLevel_tiers (xp : Qc) :
  computeLevel xp =
    if Qle_bool (num 0) xp && Qle_bool xp (num 99) then 1
    else if Qle_bool (num 100) xp && Qle_bool xp (num 299) then 2
    else if Qle_bool (num 300) xp && Qle_bool xp (num 699) then 3
    else if Qle_bool (num 700) xp && Qle_bool xp (num 1499) then 4
    else if Qle_bool (num 1500) xp then 5
    else 1.
Proof.
  unfold computeLevel, XP_LEVELS, le_bound;
    cbn [find XpLevel.min XpLevel.max XpLevel.level].
  repeat match goal with
         | |- context [ Qle_bool ?a ?b ] => destruct (Qle_bool a b); cbn [andb]
         end; reflexivity.
Qed.

(** The tier table in closed form, for an integral number. *)
Lemma computeLevel_cases (xp : Z) :
  computeLevel (num xp) =
    if xp <? 100 then 1
    else if xp <? 300 then 2
    else if xp <? 700 then 3
    else if xp <? 1500 then 4
    else 5.
Proof.
  rewrite computeLevel_tiers, !num_leb.
  repeat match goal with
         | |- context [ ?a <=? ?b ] => destruct (Z.leb_spec a b); cbn [andb]
         | |- context [ ?a <? ?b ] => destruct (Z.ltb_spec a b); cbn [andb]
         end; try reflexivity; lia.
Qed.

(** A number strictly between the top of a tier and the bottom of the next
    is in no tier, and gets the default. *)
Lemma computeLevel_gap (k : Z) (xp : Qc) :
  In k [99; 299; 699; 1499] -> (num k < xp)%Qc -> (xp < num (k + 1))%Qc ->
  computeLevel xp = 1.
Proof.
  intros Hk Hlo Hhi; rewrite computeLevel_tiers.
  assert (Hbelow : forall z, z <= k -> Qle_bool xp (num z) = false).
  { intros z Hz; apply not_true_iff_false; intros L; apply Qle_bool_iff in L.
    apply (Qlt_not_le _ _ Hlo).
    apply Qle_trans with (num z); [exact L|].
    apply Qle_bool_iff; rewrite num_leb; now apply Z.leb_le. }
  assert (Habove : forall z, k + 1 <= z -> Qle_bool (num z) xp = false).
  { intros z Hz; apply not_true_iff_false; intros L; apply Qle_bool_iff in L.
    apply (Qlt_not_le _ _ Hhi).
    apply Qle_trans with (num z); [|exact L].
    apply Qle_bool_iff; rewrite num_leb; now apply Z.leb_le. }
  cbn [In] in Hk; decompose [or] Hk; subst; try contradiction;
    rewrite ?(Hbelow 99), ?(Hbelow 299), ?(Hbelow 699), ?(Hbelow 1499),
            ?(Habove 100), ?(Habove 300), ?(Habove 700), ?(Habove 1500)
      by lia;
    rewrite ?andb_false_r; cbn [andb]; reflexivity.
Qed.

(** C4, as stated, fails on numbers that are not integral: the tiers are
    closed ranges of integers, so 299.5 is in none and gets the default
    level 1, below the level 2 of 299. *)
Lemma computeLevel_gap_counterexample :
  (num 0 <= num 299)%Qc /\ (num 299 <= Q2Qc (599 # 2))%Qc /\
  computeLevel (num 299) = 2 /\ computeLevel (Q2Qc (599 # 2)) = 1 /\
  ~ computeLevel (num 299) <= computeLevel (Q2Qc (599 # 2)).
Proof.
  split; [|split]; [apply Qle_bool_iff; reflexivity ..|].
  split; [reflexivity|]; split; [reflexivity|].
  intros H; vm_compute in H; apply H; reflexivity.
Qed.

(** C4, amended. For every number xp the level lies in 1..5; on integral
    xp >= 0 (a stored xp is a sum of integral ratings times 10) the level
    does not decrease when xp grows; level(0) = 1, level(99) = 1,
    level(100) = 2, level(1499) = 4, level(1500) = 5; a number strictly
    between two tiers gets the default level 1. *)
Theorem computeLevel_range_monotone :
  (forall xp : Qc, 1 <= computeLevel xp <= 5) /\
  (forall xp xp' : Z,
      0 <= xp -> xp <= xp' -> computeLevel (num xp) <= computeLevel (num xp')) /\
  computeLevel (num 0) = 1 /\ computeLevel (num 99) = 1 /\
  computeLevel (num 100) = 2 /\ computeLevel (num 1499) = 4 /\
  computeLevel (num 1500) = 5 /\
  (forall (k : Z) (xp : Qc),
      In k [99; 299; 699; 1499] -> (num k < xp)%Qc -> (xp < num (k + 1))%Qc ->
      computeLevel xp = 1).
Proof.
  split; [|split].
  - intros xp; rewrite computeLevel_tiers.
    repeat match goal with
           | |- context [ Qle_bool ?a ?b ] => destruct (Qle_bool a b); cbn [andb]
           end; lia.
  - intros xp xp' H0 Hle; rewrite !computeLevel_cases.
    repeat match goal with
           | |- context [ ?a <? ?b ] => destruct (Z.ltb_spec a b)
           end; lia.
  - repeat split; try reflexivity.
    intros k xp; apply computeLevel_gap.
Qed.

Lemma computeLevel_range_monotone_witness :
  (1 <= computeLevel (num 250) <= 5) /\
  computeLevel (num 250) <= computeLevel (num 700) /\
  computeLevel (Q2Qc (199 # 2)) = 1.
Proof.
  destruct computeLevel_range_monotone as (Hr & Hm & _ & _ & _ & _ & _ & Hgap).
  split; [apply Hr|]; split; [apply Hm; lia|].
  apply (Hgap 99); [now left | |]; apply Qnot_le_lt; intros L;
    apply Qle_bool_iff in L; discriminate L.
Defined.

(** ** Statistics *)

Lemma fold_left_plus {A : Type} (f : A -> Z) (l : list A) (a : Z) :
  fold_left (fun acc s => acc + f s) l a = a + sumZ (map f l).
Proof.
  revert a; induction l as [|x l IH]; intros a; simpl; [lia|].
  rewrite IH; lia.
Qed.

Lemma sumZ_map_scale (k : Z) (l : list Z) :
  sumZ (map (fun r => r * k) l) = sumZ l * k.
Proof. induction l as [|x l IH]; simpl; [reflexivity | rewrite IH; lia]. Qed.

(** The sessions the code filters carry exactly the ratings that count. *)
Lemma filter_mentorRatings (userId : string) (ss : list Session.t) :
  map (fun s => toNumber (Session.ratingForMentor s))
      (filter (fun s =>
                 (Session.mentorId s =? userId)%string
                 && SessionStatus.eqb (Session.status s) SessionStatus.Completed
                 && isNumber (Session.ratingForMentor s))
              ss)
  = mentorRatings userId ss.
Proof.
  induction ss as [|s ss IH]; simpl; [reflexivity|].
  unfold mentorRatings in *.
  destruct s as [i q m me d mo loc st [r|] re]; simpl;
    destruct (m =? userId)%string, st; simpl; rewrite IH; reflexivity.
Qed.

Lemma updateUserStats_users (userId : string) (prev : State) :
  users (updateUserStats userId prev) =
    map (fun u =>
           if (User.id u =? userId)%string
           then
             let r := recomputed userId (sessions prev) in
             User.with_stats u (st_xp r) (st_ratingAvg r) (st_ratingCount r)
                             (st_level r)
           else u)
        (users prev).
Proof.
  unfold updateUserStats, recomputed; cbn [users st_xp st_ratingAvg st_ratingCount st_level].
  rewrite !fold_left_plus, <- (filter_mentorRatings userId (sessions prev)).
  rewrite !length_map, !Z.add_0_l.
  set (S := filter _ (sessions prev)).
  rewrite map_map.
  replace (negb (Z.of_nat (List.length S) =? 0)) with (0 <? Z.of_nat (List.length S)).
  - reflexivity.
  - destruct (Z.ltb_spec 0 (Z.of_nat (List.length S))),
             (Z.eqb_spec (Z.of_nat (List.length S)) 0); simpl; try reflexivity; lia.
Qed.

(** C2. [updateUserStats userId] leaves queries, sessions and notifications
    alone and every user whose id is not [userId] as it was; a user with
    that id keeps every other field and gets xp = the sum of rating x 10
    over the completed, rated sessions mentored by [userId], ratingCount =
    their number, ratingAvg = the sum of the ratings divided by ratingCount
    (0 when ratingCount is 0) and level = the tier of xp under the
    breakpoints 0-99, 100-299, 300-699, 700-1499, 1500+. *)
Theorem updateUserStats_recomputes (userId : string) (prev : State) :
  let next := updateUserStats userId prev in
  let rs := mentorRatings userId (sessions prev) in
  queries next = queries prev /\
  sessions next = sessions prev /\
  notifications next = notifications prev /\
  Forall2
    (fun u u' =>
       (User.id u <> userId -> u' = u) /\
       (User.id u = userId ->
        u' = User.with_stats u (User.xp u') (User.ratingAvg u')
                             (User.ratingCount u') (User.level u') /\
        User.xp u' = sumZ (map (fun r => r * 10) rs) /\
        User.ratingCount u' = Z.of_nat (List.length rs) /\
        (0 < User.ratingCount u' ->
         User.ratingAvg u' = (num (sumZ rs) / num (User.ratingCount u'))%Qc) /\
        (User.ratingCount u' = 0 -> User.ratingAvg u' = 0%Qc) /\
        (0 <= User.xp u' <= 99 -> User.level u' = 1) /\
        (100 <= User.xp u' <= 299 -> User.level u' = 2) /\
        (300 <= User.xp u' <= 699 -> User.level u' = 3) /\
        (700 <= User.xp u' <= 1499 -> User.level u' = 4) /\
        (1500 <= User.xp u' -> User.level u' = 5)))
    (users prev) (users next).
Proof.
  intros next rs; subst next.
  repeat split; try reflexivity.
  rewrite updateUserStats_users.
  apply Forall2_map_self; intros u _.
  destruct (String.eqb_spec (User.id u) userId) as [E|E];
    (split; [intros N | intros Y]); try congruence.
  unfold recomputed; fold rs; cbn -[computeLevel num Qcdiv].
  repeat split; intros H;
    try (rewrite computeLevel_cases;
         repeat match goal with
                | |- context [ ?x <? ?y ] => destruct (Z.ltb_spec x y)
                end; lia).
  - destruct (Z.ltb_spec 0 (Z.of_nat (List.length rs))); [reflexivity | lia].
  - destruct (Z.ltb_spec 0 (Z.of_nat (List.length rs))); [lia | reflexivity].
Qed.

(** ** Lookup by identifier *)

Lemma uniqueIds_inj {A : Type} (key : A -> string) (l : list A) (x y : A) :
  uniqueIds key l -> In x l -> In y l -> key x = key y -> x = y.
Proof.
  intros Hu Hx Hy E.
  pose proof (find_unique key l x Hu Hx) as Fx.
  pose proof (find_unique key l y Hu Hy) as Fy.
  rewrite E in Fx; congruence.
Qed.

(** Replacing, in a collection with unique ids, the record with a given id. *)
Lemma Forall2_replace {A : Type} (key : A -> string) (l : list A) (x : A)
      (f : A -> A) :
  uniqueIds key l -> In x l ->
  Forall2 (fun y y' => (y = x -> y' = f x) /\ (y <> x -> y' = y))
          l (map (fun y => if (key y =? key x)%string then f y else y) l).
Proof.
  intros Hu Hx; apply Forall2_map_self; intros y Hy.
  destruct (String.eqb_spec (key y) (key x)) as [E|E].
  - assert (y = x) by (eapply uniqueIds_inj; eauto); subst; tauto.
  - split; [intros ->; congruence | reflexivity].
Qed.

Lemma Forall2_singleton {A : Type} (R : A -> A -> Prop) (x : A) (l : list A) :
  Forall2 R [x] l -> exists y, l = [y] /\ R x y.
Proof.
  intros H; inversion H as [|x0 y l0 l' Hxy Hrest]; subst.
  inversion Hrest; subst; eauto.
Qed.

(** ** Rating a session *)

Lemma setRating_sessions (sessionId : string) (r : Z) (forMentor : bool)
      (prev : State) :
  sessions (setRating sessionId r forMentor prev) =
    map (fun s =>
           if (Session.id s =? sessionId)%string
           then (if forMentor then Session.with_ratingForMentor s r
                 else Session.with_ratingForMentee s r)
           else s)
        (sessions prev).
Proof.
  unfold setRating; cbn [sessions]; apply map_ext; intros s.
  now destruct (Session.id s =? sessionId)%string.
Qed.



(** ** Accepting a query *)

Lemma find_query_unique (a : App) (q : Query.t) :
  In q (queries (state a)) -> uniqueIds Query.id (queries (state a)) ->
  find (fun x => (Query.id x =? Query.id q)%string) (queries (state a)) = Some q.
Proof. intros Hin Hu; now apply find_unique. Qed.

Lemma find_session_for_query (queryId : string) (ss : list Session.t) :
  (exists s, In s ss /\ Session.queryId s = queryId) ->
  exists s, find (fun s => (Session.queryId s =? queryId)%string) ss = Some s.
Proof.
  intros (s & Hin & E).
  destruct (find _ ss) as [s'|] eqn:F; [now exists s'|].
  apply find_none with (x := s) in F; [|assumption].
  rewrite E, String.eqb_refl in F; discriminate.
Qed.

Lemma MakeDate_next_hour (t : Z) :
  MakeDate (Day t)
           (MakeTime (HourFromTime t + 1) (MinFromTime t) (SecFromTime t)
                     (msFromTime t))
  = t + msPerHour.
Proof.
  unfold MakeDate, MakeTime, Day, HourFromTime, MinFromTime, SecFromTime,
    msFromTime, msPerDay, msPerHour, msPerMinute, msPerSecond.
  Z.to_euclidean_division_equations; lia.
Qed.

(** One hour later on the local clock. *)
Lemma scheduledTime_local (env : AcceptEnv) :
  scheduledTime env
  = UTC (env_LocalTZA env)
        (LocalTime (env_LocalTZA env) (env_date env) + msPerHour).
Proof.
  unfold scheduledTime, setHours, getHours; cbn zeta.
  now rewrite MakeDate_next_hour.
Qed.




(** C9. A logged-in user who accepts a query of the collection that they
    asked themselves gets the own-query alert (SelfAcceptError), and the
    application, with its sessions, is as before. *)
Theorem acceptQuery_own_query
        (a : App) (env : AcceptEnv) (m : User.t) (q : Query.t) :
  currentUser a = Some m ->
  In q (queries (state a)) ->
  uniqueIds Query.id (queries (state a)) ->
  Query.askerId q = User.id m ->
  alerts (acceptQuery (Query.id q) env a) = SelfAcceptError /\
  app (acceptQuery (Query.id q) env a) = a.
Proof.
  intros Hcu Hin Hu E.
  unfold acceptQuery.
  rewrite Hcu, (find_query_unique a q Hin Hu), E, String.eqb_refl.
  split; reflexivity.
Qed.

Lemma acceptQuery_own_query_witness :
  alerts (acceptQuery "q1" sampleEnv acceptedAppBob) = SelfAcceptError /\
  app (acceptQuery "q1" sampleEnv acceptedAppBob) = acceptedAppBob.
Proof.
  apply (acceptQuery_own_query acceptedAppBob sampleEnv bob
           (Query.with_status bobsQuery QueryStatus.InProgress)).
  - reflexivity.
  - left; reflexivity.
  - repeat constructor; simpl; tauto.
  - reflexivity.
Defined.

(** C10. A query id that no query of the collection carries: [acceptQuery]
    raises no alert and leaves the application as it was. *)
Theorem acceptQuery_unknown_query (a : App) (env : AcceptEnv) (queryId : string) :
  (forall q, In q (queries (state a)) -> Query.id q <> queryId) ->
  alerts (acceptQuery queryId env a) = [] /\
  app (acceptQuery queryId env a) = a.
Proof.
  intros Hnone; unfold acceptQuery.
  destruct (currentUser a); [|split; reflexivity].
  replace (find _ (queries (state a))) with (@None Query.t);
    [split; reflexivity|].
  symmetry; apply find_none_iff; intros q Hq.
  apply String.eqb_neq; auto.
Qed.

Lemma acceptQuery_unknown_query_witness :
  alerts (acceptQuery "q9" sampleEnv aliceApp) = [] /\
  app (acceptQuery "q9" sampleEnv aliceApp) = aliceApp.
Proof.
  apply acceptQuery_unknown_query.
  intros q [<-|[]]; discriminate.
Defined.

(** C3, as stated, fails when the user who tries again is the asker: the
    own-query check comes first.  Bob's query already has a session, Bob
    tries to accept it, and the alert is the own-query one. *)
Lemma acceptQuery_mentored_counterexample :
  currentUser acceptedAppBob = Some bob /\
  (exists q s,
      In q (queries (state acceptedAppBob)) /\ Query.id q = "q1" /\
      In s (sessions (state acceptedAppBob)) /\ Session.queryId s = "q1") /\
  alerts (acceptQuery "q1" sampleEnv acceptedAppBob) = SelfAcceptError /\
  alerts (acceptQuery "q1" sampleEnv acceptedAppBob) <> AlreadyMentoredError.
Proof.
  split; [reflexivity|].
  split.
  { exists (Query.with_status bobsQuery QueryStatus.InProgress), sampleSession.
    split; [left; reflexivity|]; split; [reflexivity|].
    split; [left; reflexivity | reflexivity]. }
  split; [reflexivity | discriminate].
Qed.

(** C3, amended. Once a session references the query [q] of the collection,
    a logged-in user [m] who tries to accept [q] leaves the application as
    it was, all its collections included: with the has-a-mentor alert
    (AlreadyMentoredError) when [m] is not the asker of [q], with the
    own-query alert (SelfAcceptError) when [m] is. *)
Theorem acceptQuery_already_mentored
        (a : App) (env : AcceptEnv) (m : User.t) (q : Query.t) :
  currentUser a = Some m ->
  In q (queries (state a)) ->
  uniqueIds Query.id (queries (state a)) ->
  (exists s, In s (sessions (state a)) /\ Session.queryId s = Query.id q) ->
  let out := acceptQuery (Query.id q) env a in
  app out = a /\
  (Query.askerId q <> User.id m -> alerts out = AlreadyMentoredError) /\
  (Query.askerId q = User.id m -> alerts out = SelfAcceptError).
Proof.
  intros Hcu Hin Hu Hs out; subst out.
  apply find_session_for_query in Hs as [s F].
  unfold acceptQuery.
  rewrite Hcu, (find_query_unique a q Hin Hu), F.
  destruct (String.eqb_spec (Query.askerId q) (User.id m)) as [E|E];
    repeat split; intros; congruence.
Qed.

Lemma acceptQuery_already_mentored_witness :
  app (acceptQuery "q1" sampleEnv acceptedApp) = acceptedApp /\
  alerts (acceptQuery "q1" sampleEnv acceptedApp) = AlreadyMentoredError.
Proof.
  assert (Hcu : currentUser acceptedApp = Some alice) by reflexivity.
  assert (Hin : In (Query.with_status bobsQuery QueryStatus.InProgress)
                   (queries (state acceptedApp))) by (left; reflexivity).
  assert (Hu : uniqueIds Query.id (queries (state acceptedApp)))
    by (repeat constructor; simpl; tauto).
  assert (Hs : exists s, In s (sessions (state acceptedApp)) /\
                         Session.queryId s =
                           Query.id (Query.with_status bobsQuery
                                                       QueryStatus.InProgress))
    by (exists sampleSession; split; [left|]; reflexivity).
  destruct (acceptQuery_already_mentored acceptedApp sampleEnv alice _
              Hcu Hin Hu Hs) as (Happ & Hal & _).
  split; [exact Happ | apply Hal; discriminate].
Defined.

(** ** Signing up *)

Lemma length_append (p t : string) :
  String.length (p ++ t) = (String.length p + String.length t)%nat.
Proof. induction p as [|c p IH]; simpl; [reflexivity | now rewrite IH]. Qed.

Lemma substring_whole (t : string) : substring 0 (String.length t) t = t.
Proof. induction t as [|c t IH]; simpl; [reflexivity | now rewrite IH]. Qed.

Lemma substring_after_prefix (p t : string) (m : nat) :
  substring (String.length p) m (p ++ t) = substring 0 m t.
Proof. induction p as [|c p IH]; simpl; [reflexivity | exact IH]. Qed.

Lemma substring_split (s : string) :
  forall k, (k <= String.length s)%nat ->
            s = substring 0 k s ++ substring k (String.length s - k) s.
Proof.
  induction s as [|c s IH]; intros [|k] Hk; simpl in *; try reflexivity; try lia.
  - now rewrite substring_whole.
  - f_equal; apply IH; lia.
Qed.

(** [endsWith] holds exactly of the strings that end with the suffix. *)
Lemma endsWith_spec (s suffix : string) :
  endsWith s suffix = true <-> exists p, s = p ++ suffix.
Proof.
  unfold endsWith; split.
  - intros H; apply andb_true_iff in H as [Hle Heq].
    apply Nat.leb_le in Hle; apply String.eqb_eq in Heq.
    exists (substring 0 (String.length s - String.length suffix) s).
    pose proof (substring_split s (String.length s - String.length suffix))
      as Hsplit.
    replace (String.length s - (String.length s - String.length suffix))%nat
      with (String.length suffix) in Hsplit by lia.
    rewrite Heq in Hsplit; apply Hsplit; lia.
  - intros [p ->]; rewrite length_append.
    apply andb_true_iff; split; [apply Nat.leb_le; lia|].
    replace (String.length p + String.length suffix - String.length suffix)%nat
      with (String.length p) by lia.
    rewrite substring_after_prefix, substring_whole; apply String.eqb_refl.
Qed.

Lemma existsb_email (email : string) (us : list User.t) :
  existsb (fun u => (User.email u =? email)%string) us = true <->
  exists u, In u us /\ User.email u = email.
Proof.
  rewrite existsb_exists; split; intros (u & Hin & E); exists u; split;
    try assumption; now apply String.eqb_eq.
Qed.

(** C6. [handleSignup]: an email that does not end with the institution's
    domain gets the domain alert (ValidationError) and no user is created;
    an email some user already has gets the exists alert
    (DuplicateAccountError) and no user is created; otherwise exactly one
    user is appended, admin iff there was no user before and student
    otherwise, with xp 0, level 1, ratingAvg 0, ratingCount 0 and not
    blocked. *)
Theorem handleSignup_register (email password newId : string) (a : App) :
  let out := handleSignup email password newId a in
  let before := users (state a) in
  ((~ exists p, email = p ++ "@pccoepune.org") ->
   alerts out = ValidationError /\ state (app out) = state a) /\
  ((exists p, email = p ++ "@pccoepune.org") ->
   (exists u, In u before /\ User.email u = email) ->
   alerts out = DuplicateAccountError /\ state (app out) = state a) /\
  ((exists p, email = p ++ "@pccoepune.org") ->
   (forall u, In u before -> User.email u <> email) ->
   exists newUser : User.t,
     users (state (app out)) = (before ++ [newUser])%list /\
     queries (state (app out)) = queries (state a) /\
     sessions (state (app out)) = sessions (state a) /\
     notifications (state (app out)) = notifications (state a) /\
     User.id newUser = newId /\
     User.email newUser = email /\
     User.password newUser = password /\
     (User.role newUser = Role.admin <-> before = []) /\
     (User.role newUser = Role.student <-> before <> []) /\
     User.xp newUser = 0 /\ User.level newUser = 1 /\
     User.ratingAvg newUser = 0%Qc /\ User.ratingCount newUser = 0 /\
     User.isBlocked newUser = false /\
     currentUserId (app out) = Some newId /\
     alerts out = []).
Proof.
  intros out before; subst out before; unfold handleSignup.
  repeat apply conj.
  - intros Hno.
    destruct (endsWith email "@pccoepune.org") eqn:E.
    + apply endsWith_spec in E; contradiction.
    + split; reflexivity.
  - intros Hdom Hdup.
    apply endsWith_spec in Hdom; apply existsb_email in Hdup.
    rewrite Hdom, Hdup; split; reflexivity.
  - intros Hdom Hnew.
    apply endsWith_spec in Hdom; rewrite Hdom; cbn [negb].
    destruct (existsb _ (users (state a))) eqn:Ex.
    + apply existsb_email in Ex as (u & Hin & E);
        exfalso; exact (Hnew u Hin E).
    + cbn [app alerts state setState setRoute setCurrentUserId users queries
           sessions notifications currentUserId User.id].
      eexists; split; [reflexivity|].
      cbn [User.id User.email User.password User.role User.xp User.level
           User.ratingAvg User.ratingCount User.isBlocked].
      destruct (users (state a)) as [|u0 us]; simpl;
        repeat split; try reflexivity; try discriminate; congruence.
Qed.

Lemma handleSignup_register_witness :
  map User.role
      (users (state (app (handleSignup "alice@pccoepune.org" "pw" "u1"
                                       initialApp))))
    = [Role.admin] /\
  alerts (handleSignup "alice@pccoepune.org" "pw" "u3" aliceApp)
    = DuplicateAccountError /\
  alerts (handleSignup "carol@example.com" "pw" "u3" aliceApp)
    = ValidationError /\
  map User.role
      (users (state (app (handleSignup "carol@pccoepune.org" "pw" "u3"
                                       aliceApp))))
    = [Role.admin; Role.student; Role.student].
Proof.
  split; [|split; [|split]].
  - destruct (handleSignup_register "alice@pccoepune.org" "pw" "u1" initialApp)
      as (_ & _ & H).
    destruct H as (u & Hu & _ & _ & _ & _ & _ & _ & Hadm & _).
    + exists "alice"; reflexivity.
    + intros u [].
    + rewrite Hu; change (users (state initialApp)) with (@nil User.t).
      cbn [map List.app]; f_equal.
      apply Hadm; reflexivity.
  - destruct (handleSignup_register "alice@pccoepune.org" "pw" "u3" aliceApp)
      as (_ & H & _).
    apply H.
    + exists "alice"; reflexivity.
    + exists alice; split; [left|]; reflexivity.
  - destruct (handleSignup_register "carol@example.com" "pw" "u3" aliceApp)
      as (H & _).
    apply H.
    intros [p Hp].
    assert (E : endsWith "carol@example.com" "@pccoepune.org" = true)
      by (apply endsWith_spec; now exists p).
    discriminate E.
  - destruct (handleSignup_register "carol@pccoepune.org" "pw" "u3" aliceApp)
      as (_ & _ & H).
    destruct H as (u & Hu & _ & _ & _ & _ & _ & _ & _ & Hstu & _).
    + exists "carol"; reflexivity.
    + intros u [<-|[<-|[]]]; discriminate.
    + rewrite Hu; change (users (state aliceApp)) with [alice; bob].
      cbn [map List.app alice bob User.role]; repeat f_equal.
      apply Hstu; discriminate.
Defined.

(** ** Sorting *)

Section SortFacts.
Context {A : Type} (comparefn : A -> A -> Qc).

Local Notation "'le'" := (notAfter comparefn).

Hypothesis le_total : forall x y, le x y \/ le y x.
Hypothesis le_trans : forall x y z, le x y -> le y z -> le x z.

Lemma insert_perm (x : A) (l : list A) :
  Permutation (insert comparefn x l) (x :: l).
Proof.
  induction l as [|y l IH]; simpl; [apply Permutation_refl|].
  destruct (Qle_bool (comparefn x y) 0); [apply Permutation_refl|].
  eapply perm_trans; [apply perm_skip, IH | apply perm_swap].
Qed.

Lemma sort_perm (l : list A) : Permutation (sort comparefn l) l.
Proof.
  induction l as [|x l IH]; simpl; [constructor|].
  eapply perm_trans; [apply insert_perm | now apply perm_skip].
Qed.

Lemma insert_sorted (x : A) (l : list A) :
  StronglySorted le l -> StronglySorted le (insert comparefn x l).
Proof.
  induction 1 as [|y l Hs IH Hall]; simpl.
  - repeat constructor.
  - destruct (Qle_bool (comparefn x y) 0) eqn:E.
    + constructor; [now constructor|].
      constructor; [exact E|].
      eapply Forall_impl; [|exact Hall]; intros z Hz; now apply le_trans with y.
    + constructor; [exact IH|].
      apply (Permutation_Forall (Permutation_sym (insert_perm x l))).
      constructor; [|exact Hall].
      destruct (le_total x y) as [H|H]; [unfold notAfter in H; congruence | exact H].
Qed.

Lemma sort_sorted (l : list A) : StronglySorted le (sort comparefn l).
Proof.
  induction l as [|x l IH]; simpl; [constructor | now apply insert_sorted].
Qed.

(** The sort is stable: it never swaps two elements of which the first is
    not to go after the second. *)
Lemma insert_first (x y : A) (l : list A) :
  In y l -> le x y -> listedBefore x y (insert comparefn x l).
Proof.
  intros Hin Hxy; induction l as [|z l IH]; [contradiction|].
  cbn [insert]; destruct (Qle_bool (comparefn x z) 0) eqn:E.
  - now apply listed_here.
  - apply listed_later.
    destruct Hin as [->|Hin]; [unfold notAfter in Hxy; congruence | auto].
Qed.

Lemma insert_keeps (a x y : A) (l : list A) :
  listedBefore x y l -> listedBefore x y (insert comparefn a l).
Proof.
  induction 1 as [l Hin|z l Hb IH]; cbn [insert].
  - destruct (Qle_bool (comparefn a x) 0).
    + now apply listed_later, listed_here.
    + apply listed_here.
      apply (Permutation_in _ (Permutation_sym (insert_perm a l))).
      now right.
  - destruct (Qle_bool (comparefn a z) 0).
    + now apply listed_later, listed_later.
    + now apply listed_later.
Qed.

Lemma sort_stable (x y : A) (l : list A) :
  listedBefore x y l -> le x y -> listedBefore x y (sort comparefn l).
Proof.
  intros Hb Hxy; induction Hb as [l Hin|z l Hb IH]; cbn [sort fold_right].
  - apply insert_first; [|exact Hxy].
    exact (Permutation_in _ (Permutation_sym (sort_perm l)) Hin).
  - now apply insert_keeps.
Qed.
End SortFacts.

Lemma StronglySorted_nth {A : Type} (R : A -> A -> Prop) (l : list A) :
  StronglySorted R l ->
  forall i j a b, (i < j)%nat ->
                  nth_error l i = Some a -> nth_error l j = Some b -> R a b.
Proof.
  induction 1 as [|x l Hs IH Hall]; intros i j a b Hij Hi Hj.
  - destruct i; discriminate.
  - destruct j as [|j]; [lia|].
    destruct i as [|i]; simpl in *.
    + injection Hi as <-.
      rewrite Forall_forall in Hall; apply Hall.
      eapply nth_error_In; eassumption.
    + apply (IH i j); auto; lia.
Qed.

(** ** The comparison function of the leaderboard *)

Lemma num_le_0 (z : Z) : Qle_bool (num z) 0 = true <-> z <= 0.
Proof.
  rewrite Qle_bool_iff; unfold num; cbn [this Q2Qc].
  rewrite Qred_correct; unfold Qle; simpl; lia.
Qed.

Lemma Qcminus_le_0 (x y : Qc) : Qle_bool (x - y)%Qc 0 = true <-> (x <= y)%Qc.
Proof.
  rewrite Qle_bool_iff.
  unfold Qcle, Qcminus, Qcplus, Qcopp; cbn [this Q2Qc].
  rewrite !Qred_correct.
  split; intros H.
  - apply (Qplus_le_l _ _ (- y)); now rewrite Qplus_opp_r.
  - apply (Qplus_le_l _ _ (- y)) in H; now rewrite Qplus_opp_r in H.
Qed.

Lemma Qc_eqb_eq (x y : Qc) : Qc_eqb x y = true <-> x = y.
Proof.
  unfold Qc_eqb; rewrite Qeq_bool_iff; split;
    [apply Qc_is_canon | intros ->; reflexivity].
Qed.

Lemma completedMentorSessions_filter (userId : string) (ss : list Session.t) :
  Z.of_nat
    (List.length
       (filter (fun s =>
                  (Session.mentorId s =? userId)%string
                  && SessionStatus.eqb (Session.status s) SessionStatus.Completed)
               ss))
  = completedMentorSessions userId ss.
Proof.
  induction ss as [|s ss IH]; [reflexivity|].
  cbn [filter completedMentorSessions].
  destruct (Session.mentorId s =? userId)%string, (Session.status s);
    cbn [andb SessionStatus.eqb List.length]; rewrite <- IH; lia.
Qed.

(** The comparison function says "not after" exactly when the user ranks
    before in the words of the specification. *)
Lemma compareUsers_ranksBefore (localeCompare : string -> string -> Z)
      (st : State) (a b : User.t) :
  notAfter (compareUsers localeCompare st) a b
  <-> ranksBefore localeCompare st a b.
Proof.
  unfold notAfter, compareUsers, ranksBefore, completedAsMentor.
  rewrite !completedMentorSessions_filter.
  destruct (Z.eqb_spec (User.xp b) (User.xp a)) as [Ex|Ex]; cbn [negb].
  2: { rewrite num_le_0; split; [intros H; left; lia | intros [H|[H _]]; lia]. }
  destruct (Qc_eqb (User.ratingAvg b) (User.ratingAvg a)) eqn:Ea; cbn [negb].
  2: { rewrite Qcminus_le_0; split.
       - intros H; right; split; [congruence|]; left.
         apply Qcle_lt_or_eq in H as [H|H]; [exact H|].
         apply Qc_eqb_eq in H; congruence.
       - intros [H|[_ [H|[H _]]]]; [lia | now apply Qclt_le_weak |].
         symmetry in H; apply Qc_eqb_eq in H; congruence. }
  apply Qc_eqb_eq in Ea.
  destruct (Z.eqb_spec (completedMentorSessions (User.id b) (sessions st))
                       (completedMentorSessions (User.id a) (sessions st)))
    as [Ec|Ec]; cbn [negb].
  2: { rewrite num_le_0; split.
       - intros H; right; split; [congruence|]; right; split; [congruence|].
         left; lia.
       - intros [H|[_ [H|[_ [H|[H _]]]]]]; try lia.
         rewrite Ea in H; exfalso; exact (Qclt_not_eq _ _ H eq_refl). }
  rewrite num_le_0; split.
  - intros H; right; split; [congruence|]; right; split; [congruence|].
    right; split; [congruence | exact H].
  - intros [H|[_ [H|[_ [H|[_ H]]]]]]; try lia; try exact H.
    rewrite Ea in H; exfalso; exact (Qclt_not_eq _ _ H eq_refl).
Qed.

(** ** The two collations are consistent *)

Lemma string_leb_trans (a b c : string) :
  String.leb a b = true -> String.leb b c = true -> String.leb a c = true.
Proof.
  unfold String.leb.
  destruct (String.compare a b) eqn:Eab; try discriminate;
    destruct (String.compare b c) eqn:Ebc; try discriminate; intros _ _.
  - apply String.compare_eq_iff in Eab; subst; now rewrite Ebc.
  - apply String.compare_eq_iff in Eab; subst; now rewrite Ebc.
  - apply String.compare_eq_iff in Ebc; subst; now rewrite Eab.
  - apply String_as_OT.cmp_lt in Eab, Ebc.
    pose proof (String_as_OT.lt_trans _ _ _ Eab Ebc) as H.
    apply String_as_OT.cmp_lt in H; unfold String_as_OT.cmp in H.
    now rewrite H.
Qed.

Lemma codeUnitOrder_le_0 (a b : string) :
  codeUnitOrder a b <= 0 <-> String.leb a b = true.
Proof.
  unfold codeUnitOrder, String.leb.
  destruct (String.compare a b); split; intros H; try reflexivity;
    try discriminate; lia.
Qed.

Lemma codeUnitOrder_consistent : consistentCollation codeUnitOrder.
Proof.
  split.
  - intros a b; rewrite !codeUnitOrder_le_0; apply String.leb_total.
  - intros a b c; rewrite !codeUnitOrder_le_0; apply string_leb_trans.
Qed.

Lemma codeUnitOrder_separates (ids : list string) : separates codeUnitOrder ids.
Proof.
  intros x y _ _; rewrite !codeUnitOrder_le_0; apply String.leb_antisym.
Qed.

Lemma canonicalOrder_consistent : consistentCollation canonicalOrder.
Proof.
  destruct codeUnitOrder_consistent as [Ht Hr].
  split; unfold canonicalOrder.
  - intros a b; apply Ht.
  - intros a b c; apply Hr.
Qed.

(** ** The leaderboard order is a total preorder *)

Section Ranking.
Variable localeCompare : string -> string -> Z.
Hypothesis collation : consistentCollation localeCompare.

Lemma ranksBefore_total (st : State) (a b : User.t) :
  ranksBefore localeCompare st a b \/ ranksBefore localeCompare st b a.
Proof.
  unfold ranksBefore.
  destruct (Z.lt_trichotomy (User.xp a) (User.xp b)) as [H|[Ex|H]];
    [right; left; exact H | | left; left; exact H].
  destruct (Qclt_le_dec (User.ratingAvg a) (User.ratingAvg b)) as [H|H];
    [right; right; split; [congruence|]; left; exact H|].
  apply Qcle_lt_or_eq in H as [H|Ea];
    [left; right; split; [congruence|]; left; exact H|].
  destruct (Z.lt_trichotomy
              (completedMentorSessions (User.id a) (sessions st))
              (completedMentorSessions (User.id b) (sessions st)))
    as [H|[Ec|H]].
  - right; right; split; [congruence|]; right; split; [congruence|]; now left.
  - destruct (proj1 collation (User.id a) (User.id b)) as [H|H].
    + left; right; split; [congruence|]; right; split; [congruence|].
      right; split; [congruence | exact H].
    + right; right; split; [congruence|]; right; split; [congruence|].
      right; split; [congruence | exact H].
  - left; right; split; [congruence|]; right; split; [congruence|]; now left.
Qed.

Lemma ranksBefore_trans (st : State) (a b c : User.t) :
  ranksBefore localeCompare st a b -> ranksBefore localeCompare st b c ->
  ranksBefore localeCompare st a c.
Proof.
  unfold ranksBefore.
  intros [H1|[Ex1 H1]] [H2|[Ex2 H2]]; try (left; lia).
  right; split; [congruence|].
  destruct H1 as [H1|[Ea1 H1]], H2 as [H2|[Ea2 H2]].
  - left; now apply Qclt_trans with (User.ratingAvg b).
  - left; now rewrite <- Ea2.
  - left; now rewrite Ea1.
  - right; split; [congruence|].
    destruct H1 as [H1|[Ec1 H1]], H2 as [H2|[Ec2 H2]]; try (left; lia).
    right; split; [congruence|].
    now apply (proj2 collation) with (User.id b).
Qed.

(** Two users that rank before each other are tied, and the collation puts
    their ids in both orders. *)
Lemma ranksBefore_both (st : State) (a b : User.t) :
  ranksBefore localeCompare st a b -> ranksBefore localeCompare st b a ->
  tied st a b /\
  localeCompare (User.id a) (User.id b) <= 0 /\
  localeCompare (User.id b) (User.id a) <= 0.
Proof.
  unfold ranksBefore, tied.
  intros [H1|[Ex1 H1]] [H2|[Ex2 H2]]; try lia.
  destruct H1 as [H1|[Ea1 H1]], H2 as [H2|[Ea2 H2]];
    try (exfalso; eapply Qclt_not_eq; [eassumption | congruence]).
  - exfalso; apply (Qclt_not_le _ _ H1); now apply Qclt_le_weak.
  - destruct H1 as [H1|[Ec1 H1]], H2 as [H2|[Ec2 H2]]; try lia.
    repeat split; assumption.
Qed.

(** Of two tied users, the one that ranks before has the id that the
    collation does not put after. *)
Lemma ranksBefore_tied (st : State) (a b : User.t) :
  ranksBefore localeCompare st a b -> tied st a b ->
  localeCompare (User.id a) (User.id b) <= 0.
Proof.
  intros H (Ex & Ea & Ec).
  destruct H as [H|[_ [H|[_ [H|[_ H]]]]]]; try lia.
  rewrite Ea in H; exfalso; exact (Qclt_not_eq _ _ H eq_refl).
Qed.

Lemma leaderboard_sorted (st : State) :
  StronglySorted (ranksBefore localeCompare st) (leaderboard localeCompare st).
Proof.
  unfold leaderboard.
  assert (Hs : StronglySorted (notAfter (compareUsers localeCompare st))
                              (sort (compareUsers localeCompare st) (users st))).
  { apply sort_sorted.
    - intros x y; rewrite !compareUsers_ranksBefore; apply ranksBefore_total.
    - intros x y z; rewrite !compareUsers_ranksBefore; apply ranksBefore_trans. }
  induction Hs as [|x l Hl IH Hall]; constructor; [exact IH|].
  eapply Forall_impl; [|exact Hall].
  intros y Hy; now apply compareUsers_ranksBefore.
Qed.

(** Users that rank before each other are the same user, when ids are
    unique and the collation tells them apart. *)
Lemma ranksBefore_antisym (st : State) (a b : User.t) :
  uniqueIds User.id (users st) ->
  separates localeCompare (map User.id (users st)) ->
  In a (users st) -> In b (users st) ->
  ranksBefore localeCompare st a b -> ranksBefore localeCompare st b a ->
  a = b.
Proof.
  intros Hu Hsep Ha Hb Hab Hba.
  destruct (ranksBefore_both st a b Hab Hba) as (_ & H1 & H2).
  apply (uniqueIds_inj User.id (users st)); auto.
  apply Hsep; auto using in_map.
Qed.
End Ranking.

(** C5, as stated, fails for a collation that honours canonical
    equivalence, as the language standard requires of [localeCompare]: two
    users with different ids, the precomposed and the combining spelling of
    the same letter, are tied on the three metrics, each ranks before the
    other, and the leaderboard lists them in the order in which they are
    stored. *)
Lemma leaderboard_equivalent_ids_counterexample :
  consistentCollation canonicalOrder /\
  uniqueIds User.id (users equivalentIdsState) /\
  canonicalOrder precomposedId combiningId = 0 /\
  canonicalOrder combiningId precomposedId = 0 /\
  tied equivalentIdsState precomposedUser combiningUser /\
  ranksBefore canonicalOrder equivalentIdsState precomposedUser combiningUser /\
  ranksBefore canonicalOrder equivalentIdsState combiningUser precomposedUser /\
  precomposedUser <> combiningUser /\
  leaderboard canonicalOrder equivalentIdsState
  = [precomposedUser; combiningUser] /\
  leaderboard canonicalOrder
              (mkState [combiningUser; precomposedUser] [] [] [])
  = [combiningUser; precomposedUser].
Proof.
  split; [exact canonicalOrder_consistent|].
  split; [repeat constructor; simpl; intuition discriminate|].
  split; [reflexivity|].
  split; [reflexivity|].
  split; [split; [reflexivity | split; reflexivity]|].
  split; [|split].
  1, 2: right; (split; [reflexivity|]); right; (split; [reflexivity|]);
        right; (split; [reflexivity|]); vm_compute; discriminate.
  split; [discriminate|].
  split; reflexivity.
Qed.

(** C5, amended. For a collation that is a consistent comparison of
    strings, the leaderboard is a rearrangement of all the users in which
    every user ranks before every later one: more xp, then higher
    ratingAvg, then more Completed sessions as mentor, then an id that the
    collation does not put after.  The ranking is total and transitive, and
    of two users tied on the three metrics the earlier one has the id that
    the collation does not put after.  When the ids are unique and the
    collation tells them apart, users that rank before each other are the
    same user, so the ranking is a total order, and of two tied users the
    later one has the id that the collation puts after.  In any case the
    order of two users is never reversed without need: a user stored before
    one that they rank before is listed before that one. *)
Theorem leaderboard_total_order (localeCompare : string -> string -> Z)
        (st : State) :
  consistentCollation localeCompare ->
  let before := ranksBefore localeCompare st in
  let board := leaderboard localeCompare st in
  Permutation board (users st) /\
  StronglySorted before board /\
  (forall a b, before a b \/ before b a) /\
  (forall a b c, before a b -> before b c -> before a c) /\
  (forall i j a b,
      (i < j)%nat -> nth_error board i = Some a -> nth_error board j = Some b ->
      tied st a b -> localeCompare (User.id a) (User.id b) <= 0) /\
  (uniqueIds User.id (users st) ->
   separates localeCompare (map User.id (users st)) ->
   (forall a b, In a (users st) -> In b (users st) ->
                before a b -> before b a -> a = b) /\
   (forall i j a b,
       (i < j)%nat ->
       nth_error board i = Some a -> nth_error board j = Some b ->
       tied st a b -> 0 < localeCompare (User.id b) (User.id a))) /\
  (forall a b, listedBefore a b (users st) -> before a b ->
               listedBefore a b board).
Proof.
  intros Hc before board; subst before board.
  pose proof (leaderboard_sorted localeCompare Hc st) as Hsorted.
  assert (Hperm : Permutation (leaderboard localeCompare st) (users st))
    by apply sort_perm.
  split; [exact Hperm|].
  split; [exact Hsorted|].
  split; [apply ranksBefore_total; exact Hc|].
  split; [apply ranksBefore_trans; exact Hc|].
  split; [|split].
  - intros i j a b Hij Hi Hj Ht.
    apply ranksBefore_tied with st; [|exact Ht].
    exact (StronglySorted_nth _ _ Hsorted i j a b Hij Hi Hj).
  - intros Hu Hsep; split.
    + intros a b; now apply ranksBefore_antisym.
    + intros i j a b Hij Hi Hj Ht.
      destruct (Z.lt_ge_cases 0 (localeCompare (User.id b) (User.id a)))
        as [H|H]; [exact H | exfalso].
      pose proof (StronglySorted_nth _ _ Hsorted i j a b Hij Hi Hj) as Hab.
      pose proof (ranksBefore_tied localeCompare st a b Hab Ht) as Hle.
      assert (Ha : In a (users st))
        by (apply (Permutation_in _ Hperm); eapply nth_error_In; eauto).
      assert (Hb : In b (users st))
        by (apply (Permutation_in _ Hperm); eapply nth_error_In; eauto).
      assert (E : User.id a = User.id b)
        by (apply Hsep; auto using in_map).
      assert (Hnd : NoDup (map User.id (leaderboard localeCompare st))).
      { apply (Permutation_NoDup (l := map User.id (users st))); [|exact Hu].
        apply Permutation_map, Permutation_sym, Hperm. }
      rewrite NoDup_nth_error in Hnd.
      assert (i = j); [|lia].
      apply Hnd.
      * apply nth_error_Some; rewrite nth_error_map, Hi; discriminate.
      * rewrite !nth_error_map, Hi, Hj; cbn [option_map]; now rewrite E.
  - intros a b Hb Hab; unfold leaderboard.
    apply sort_stable; [exact Hb | now apply compareUsers_ranksBefore].
Qed.

Lemma leaderboard_total_order_witness :
  map (fun u => completedMentorSessions (User.id u) (sessions mentorsState))
      [carol; alice; bob] = [2; 1; 1] /\
  leaderboard codeUnitOrder mentorsState = [carol; alice; bob] /\
  ranksBefore codeUnitOrder mentorsState carol alice /\
  codeUnitOrder (User.id alice) (User.id bob) <= 0 /\
  0 < codeUnitOrder (User.id bob) (User.id alice).
Proof.
  destruct (leaderboard_total_order codeUnitOrder mentorsState
              codeUnitOrder_consistent)
    as (_ & Hsorted & _ & _ & Htie & Horder & _).
  assert (Hu : uniqueIds User.id (users mentorsState))
    by (repeat constructor; simpl; intuition discriminate).
  destruct (Horder Hu (codeUnitOrder_separates _)) as (_ & Hstrict).
  assert (Ht : tied mentorsState alice bob)
    by (split; [reflexivity | split; reflexivity]).
  split; [reflexivity|].
  split; [reflexivity|].
  split; [|split].
  - exact (StronglySorted_nth _ _ Hsorted 0%nat 1%nat carol alice
             ltac:(lia) eq_refl eq_refl).
  - exact (Htie 1%nat 2%nat alice bob ltac:(lia) eq_refl eq_refl Ht).
  - exact (Hstrict 1%nat 2%nat alice bob ltac:(lia) eq_refl eq_refl Ht).
Defined.

(** ** Ratings *)

(** C7, as stated, fails on [rateSession] itself, which has no guard: a
    second call overwrites a rating that is set (5 becomes 3), a call on a
    Confirmed session sets its rating, and the value is not checked. *)
Lemma rateSession_guard_counterexample :
  map Session.ratingForMentor (sessions (state ratedApp)) = [Some 5] /\
  map Session.ratingForMentor
      (sessions (state (app (rateSession "s1" 3 true ratedApp)))) = [Some 3] /\
  map Session.status (sessions (state acceptedApp))
    = [SessionStatus.Confirmed] /\
  map Session.status
      (sessions (state (app (rateSession "s1" 9 false acceptedApp))))
    = [SessionStatus.Confirmed] /\
  map Session.ratingForMentee
      (sessions (state (app (rateSession "s1" 9 false acceptedApp))))
    = [Some 9].
Proof. repeat split. Qed.

Ltac unchanged :=
  unfold handleLogout, toggleBlockUser;
  cbn [app state sessions setState setAuthMode setRoute setCurrentUserId];
  apply change_none.

Lemma handle_sessionsChange (e : Event) (a : App) :
  sessionsChange a e (sessions (state (app (handle e a)))).
Proof.
  destruct e; cbn [handle].
  - unfold handleSignup.
    destruct (negb _); [unchanged|]; destruct (existsb _ _); unchanged.
  - unfold handleLogin.
    destruct (find _ _) as [u|]; [destruct (User.isBlocked u)|]; unchanged.
  - unchanged.
  - unfold updateProfile; destruct (currentUser a); unchanged.
  - unfold createQuery; destruct (currentUser a); unchanged.
  - unfold acceptQuery.
    destruct (currentUser a) as [cu|]; [|unchanged].
    destruct (find _ (queries (state a))) as [q|]; [|unchanged].
    destruct (_ =? _)%string; [unchanged|].
    destruct (find _ (sessions (state a))); [unchanged|].
    cbn [app state sessions setState]; apply change_accept.
  - unfold markSessionComplete; cbn [app state sessions setState];
      apply change_mark.
  - unfold rateSession.
    assert (H : sessionsChange a (EvRateSession sessionId ratingValue forMentor)
                  (sessions (setRating sessionId ratingValue forMentor (state a))))
      by (rewrite setRating_sessions; apply change_rate).
    destruct (find _ _) as [s|]; [destruct forMentor|]; exact H.
  - unchanged.
  - unchanged.
  - unchanged.
Qed.

Lemma map_id_preserved (f : Session.t -> Session.t) (ss : list Session.t) :
  (forall s, Session.id (f s) = Session.id s) ->
  map Session.id (map f ss) = map Session.id ss.
Proof. intros H; rewrite map_map; apply map_ext; exact H. Qed.

Lemma keepsRatings_refl (ss : list Session.t) : Forall2 keepsRatings ss ss.
Proof.
  induction ss as [|s ss IH]; constructor; [|exact IH].
  repeat split; auto.
Qed.

Lemma NoDup_snoc (l : list string) (x : string) :
  NoDup l -> ~ In x l -> NoDup (l ++ [x]).
Proof.
  intros Hl Hx.
  apply (Permutation_NoDup (Permutation_cons_append l x)).
  now constructor.
Qed.

(** The events the pages offer keep the invariant. *)
Lemma offered_step_invariant (a : App) (now : Z) (e : Event) :
  ratingsInvariant (sessions (state a)) ->
  offered now a e ->
  ratingsInvariant (sessions (state (app (handle e a)))).
Proof.
  intros [Hwf Hu] Hoff.
  pose proof (handle_sessionsChange e a) as Hc.
  remember (sessions (state (app (handle e a)))) as ss' eqn:E; clear E.
  destruct Hc as [e | queryId env mentorId menteeId dateTime mode location
                  | sessionId role didHappen | sessionId r forMentor].
  - split; assumption.
  - cbn [offered] in Hoff; split.
    + apply Forall_app; split; [exact Hwf|].
      repeat constructor; cbn; intros; auto.
    + unfold uniqueIds; rewrite map_app; apply NoDup_snoc; [exact Hu|].
      cbn; intros Hin; apply in_map_iff in Hin as (s & Es & Hs).
      exact (Hoff s Hs Es).
  - cbn [offered] in Hoff.
    destruct Hoff as (me & s0 & _ & Hin0 & _ & Hout & ->).
    split.
    + rewrite Forall_forall in Hwf |- *; intros x' Hx'.
      apply in_map_iff in Hx' as (x & <- & Hx).
      destruct (String.eqb_spec (Session.id x) (Session.id s0)) as [Ex|Ex];
        [|now apply Hwf].
      assert (x = s0) by (eapply uniqueIds_inj; eauto); subst x.
      destruct (Hwf s0 Hin0) as (_ & _ & Hnone).
      unfold offersOutcome, isCompleted in Hout.
      apply andb_true_iff in Hout as [_ Hnc]; apply negb_true_iff in Hnc.
      destruct Hnone as [Hm He].
      { intros Hc; apply SessionStatus_eqb_eq in Hc; congruence. }
      unfold ratingsWellFormed; cbn; rewrite Hm, He; cbn; auto.
    + unfold uniqueIds; rewrite map_id_preserved; [exact Hu|].
      intros s; now destruct (_ =? _)%string.
  - cbn [offered] in Hoff.
    destruct Hoff as (me & s0 & role & _ & Hin0 & _ & Hrate & Hr & -> & ->).
    split.
    + rewrite Forall_forall in Hwf |- *; intros x' Hx'.
      apply in_map_iff in Hx' as (x & <- & Hx).
      destruct (String.eqb_spec (Session.id x) (Session.id s0)) as [Ex|Ex];
        [|now apply Hwf].
      assert (x = s0) by (eapply uniqueIds_inj; eauto); subst x.
      destruct (Hwf s0 Hin0) as (Hrm & Hre & _).
      unfold offersRating, isCompleted in Hrate.
      apply andb_true_iff in Hrate as [Hc _]; apply SessionStatus_eqb_eq in Hc.
      assert (Hrange : 1 <= r <= 5)
        by (cbn in Hr; decompose [or] Hr; subst; try lia; contradiction).
      destruct role; unfold ratingsWellFormed; cbn;
        (split; [|split]); auto; intros; congruence.
    + unfold uniqueIds; rewrite map_id_preserved; [exact Hu|].
      intros s; destruct (_ =? _)%string; [destruct (ratesMentor role)|];
        reflexivity.
Qed.

(** The events the pages offer never change a rating that is set. *)
Lemma offered_step_keeps (a : App) (now : Z) (e : Event) :
  ratingsInvariant (sessions (state a)) ->
  offered now a e ->
  exists kept added,
    sessions (state (app (handle e a))) = (kept ++ added)%list /\
    Forall2 keepsRatings (sessions (state a)) kept.
Proof.
  intros [Hwf Hu] Hoff.
  pose proof (handle_sessionsChange e a) as Hc.
  remember (sessions (state (app (handle e a)))) as ss' eqn:E; clear E.
  destruct Hc as [e | queryId env mentorId menteeId dateTime mode location
                  | sessionId role didHappen | sessionId r forMentor].
  - exists (sessions (state a)), []; split;
      [now rewrite app_nil_r | apply keepsRatings_refl].
  - eexists _, _; split; [reflexivity | apply keepsRatings_refl].
  - eexists _, []; split; [now rewrite app_nil_r|].
    apply Forall2_map_self; intros x _.
    destruct (_ =? _)%string; repeat split; auto.
  - cbn [offered] in Hoff.
    destruct Hoff as (me & s0 & role & _ & Hin0 & _ & Hrate & _ & -> & ->).
    eexists _, []; split; [now rewrite app_nil_r|].
    apply Forall2_map_self; intros x Hx.
    destruct (String.eqb_spec (Session.id x) (Session.id s0)) as [Ex|Ex];
      [|repeat split; auto].
    assert (x = s0) by (eapply uniqueIds_inj; eauto); subst x.
    unfold offersRating in Hrate.
    apply andb_true_iff in Hrate as [_ Hnull]; apply negb_true_iff in Hnull.
    destruct role; cbn in Hnull |- *; repeat split; cbn; auto;
      intros r' Hr'; rewrite Hr' in Hnull; discriminate.
Qed.

Lemma reachable_invariant (a : App) :
  reachable a -> ratingsInvariant (sessions (state a)).
Proof.
  induction 1 as [|a now e Hr IH Hoff].
  - split; constructor.
  - now apply offered_step_invariant with now.
Qed.

(** C7, amended. In every state reached from the first start through the
    events the pages offer (the rating buttons 1..5 appear only on a
    Completed session whose rating by the viewer is unset, the outcome
    buttons only on a session that is not Completed, and an accepted query
    gets a session id not yet in use), each rating field of each session is
    unset or in 1..5 and a session that carries a rating is Completed; and
    no such event changes a rating that is set. *)
Theorem ratings_guarded_by_the_page :
  (forall a, reachable a ->
             forall s, In s (sessions (state a)) -> ratingsWellFormed s) /\
  (forall a now e,
      reachable a -> offered now a e ->
      exists kept added,
        sessions (state (app (handle e a))) = (kept ++ added)%list /\
        Forall2 keepsRatings (sessions (state a)) kept).
Proof.
  split.
  - intros a Hr s Hs.
    destruct (reachable_invariant a Hr) as [Hwf _].
    rewrite Forall_forall in Hwf; now apply Hwf.
  - intros a now e Hr Hoff.
    apply offered_step_keeps with now; [now apply reachable_invariant | exact Hoff].
Qed.

Lemma sampleRun_reachable : reachable sampleRun.
Proof.
  unfold sampleRun, sampleEvents, runEvents; cbn [fold_left snd].
  apply (reach_step _ 4000200).
  apply (reach_step _ 4000100).
  apply (reach_step _ 4000000).
  apply (reach_step _ 5000).
  apply (reach_step _ 500).
  apply (reach_step _ 400).
  apply (reach_step _ 300).
  apply (reach_step _ 200).
  apply (reach_step _ 100).
  - apply reach_init.
  - exact I.
  - exact I.
  - exact I.
  - exact I.
  - exact I.
  - intros s [].
  - eexists _, _; split; [reflexivity|].
    split; [left; reflexivity|]; repeat split.
  - exact I.
  - eexists _, _, SessionRole.mentee; split; [reflexivity|].
    split; [left; reflexivity|]; repeat split.
    cbn; tauto.
Qed.

Lemma ratings_guarded_by_the_page_witness :
  map Session.ratingForMentor (sessions (state sampleRun)) = [Some 5] /\
  Forall ratingsWellFormed (sessions (state sampleRun)).
Proof.
  split; [reflexivity|].
  destruct ratings_guarded_by_the_page as [Hwf _].
  apply Forall_forall; intros s Hs.
  exact (Hwf sampleRun sampleRun_reachable s Hs).
Defined.

(** * Further properties of the handlers *)

(** ** Recomputing statistics *)

Lemma updateUserStats_eq (userId : string) (prev : State) :
  updateUserStats userId prev =
    mkState
      (map (fun u =>
              if (User.id u =? userId)%string
              then
                let r := recomputed userId (sessions prev) in
                User.with_stats u (st_xp r) (st_ratingAvg r) (st_ratingCount r)
                                (st_level r)
              else u)
           (users prev))
      (queries prev) (sessions prev) (notifications prev).
Proof.
  rewrite <- updateUserStats_users; reflexivity.
Qed.

(** Recomputing the statistics of a user a second time changes nothing, and
    recomputing those of two users gives the same state in either order. *)
Theorem updateUserStats_idempotent_commutes (u1 u2 : string) (st : State) :
  updateUserStats u1 (updateUserStats u1 st) = updateUserStats u1 st /\
  updateUserStats u1 (updateUserStats u2 st) =
    updateUserStats u2 (updateUserStats u1 st).
Proof.
  rewrite !updateUserStats_eq; cbn [users queries sessions notifications].
  split; f_equal; rewrite !map_map; apply map_ext; intros u.
  - destruct (User.id u =? u1)%string eqn:E;
      cbn [User.with_stats User.id]; rewrite ?E; reflexivity.
  - destruct (String.eqb_spec u1 u2) as [->|N]; [reflexivity|].
    destruct (User.id u =? u2)%string eqn:E2, (User.id u =? u1)%string eqn:E1;
      cbn [User.with_stats User.id]; rewrite ?E1, ?E2; try reflexivity.
    apply String.eqb_eq in E1, E2; congruence.
Qed.

(** ** Identifiers nobody carries *)

Lemma map_if_none {A : Type} (p : A -> bool) (f : A -> A) (l : list A) :
  (forall x, In x l -> p x = false) ->
  map (fun x => if p x then f x else x) l = l.
Proof.
  induction l as [|x l IH]; intros H; simpl; [reflexivity|].
  rewrite (H x (or_introl eq_refl)), IH; [reflexivity|].
  intros y Hy; apply H; now right.
Qed.

Lemma State_eta (st : State) :
  mkState (users st) (queries st) (sessions st) (notifications st) = st.
Proof. now destruct st. Qed.

Lemma App_eta (a : App) :
  mkApp (state a) (currentUserId a) (route a) (authMode a) = a.
Proof. now destruct a. Qed.

(** With a session id that no session carries, marking an outcome and
    rating (either side) raise no alert and leave the application as it was:
    no session changes and no statistics are recomputed. *)
Theorem unknown_session_is_ignored
        (a : App) (sessionId : string) (role : SessionRole.t)
        (didHappen forMentor : bool) (r : Z) :
  (forall s, In s (sessions (state a)) -> Session.id s <> sessionId) ->
  markSessionComplete sessionId role didHappen a = mkOutcome a [] /\
  rateSession sessionId r forMentor a = mkOutcome a [].
Proof.
  intros Hnone.
  assert (Hf : forall s, In s (sessions (state a)) ->
                         (Session.id s =? sessionId)%string = false)
    by (intros s Hs; apply String.eqb_neq; auto).
  split.
  - unfold markSessionComplete, setState.
    rewrite (map_if_none (fun s => (Session.id s =? sessionId)%string))
      by exact Hf.
    rewrite State_eta, App_eta; reflexivity.
  - unfold rateSession.
    replace (find _ (sessions (state a))) with (@None Session.t)
      by (symmetry; apply find_none_iff; exact Hf).
    unfold setState, setRating.
    replace (map _ (sessions (state a))) with (sessions (state a)).
    + rewrite State_eta, App_eta; reflexivity.
    + symmetry; rewrite <- (map_id (sessions (state a))) at 2.
      apply map_ext_in; intros s Hs; now rewrite (Hf s Hs).
Qed.

Lemma unknown_session_is_ignored_witness :
  markSessionComplete "s9" SessionRole.mentor true acceptedApp
    = mkOutcome acceptedApp [] /\
  rateSession "s9" 4 true acceptedApp = mkOutcome acceptedApp [].
Proof.
  apply unknown_session_is_ignored.
  intros s [<-|[]]; discriminate.
Defined.

(** ** Marking an outcome *)

(** The outcome of a session can be set again: the last call decides,
    whatever was there (also Completed or No-show); ratings, users, queries
    and notifications are not touched. *)
Theorem markSessionComplete_last_wins
        (a : App) (sessionId : string) (r1 r2 : SessionRole.t) (b1 b2 : bool) :
  let once := app (markSessionComplete sessionId r2 b2 a) in
  let twice :=
    app (markSessionComplete sessionId r2 b2
           (app (markSessionComplete sessionId r1 b1 a))) in
  twice = once /\
  Forall2 (fun s s' =>
             Session.with_status s' (Session.status s) = s /\
             (Session.id s = sessionId ->
              Session.status s' =
                if b2 then SessionStatus.Completed else SessionStatus.NoShow) /\
             (Session.id s <> sessionId -> s' = s))
          (sessions (state a)) (sessions (state once)) /\
  users (state once) = users (state a) /\
  queries (state once) = queries (state a) /\
  notifications (state once) = notifications (state a).
Proof.
  cbn zeta; unfold markSessionComplete, setState;
    cbn [app state users queries sessions notifications currentUserId route authMode].
  split; [|split; [|repeat split]].
  - do 2 f_equal; rewrite map_map; apply map_ext; intros s.
    destruct (Session.id s =? sessionId)%string eqn:E;
      cbn [Session.id Session.with_status]; rewrite ?E; reflexivity.
  - apply Forall2_map_self; intros s _.
    destruct (String.eqb_spec (Session.id s) sessionId) as [E|E];
      repeat split; try congruence; now destruct s.
Qed.

(** ** Blocking *)

(** Blocking is a toggle: pressing the button twice gives back the
    application as it was. *)
Theorem toggleBlockUser_twice (userId : string) (a : App) :
  app (toggleBlockUser userId (app (toggleBlockUser userId a))) = a.
Proof.
  unfold toggleBlockUser, setState;
    cbn [app state users queries sessions notifications currentUserId route authMode].
  rewrite map_map.
  replace (map _ (users (state a))) with (users (state a));
    [now rewrite State_eta, App_eta|].
  rewrite <- (map_id (users (state a))) at 1; apply map_ext; intros u.
  destruct (User.id u =? userId)%string eqn:E;
    cbn [User.id User.toggle_blocked]; rewrite ?E; [|reflexivity].
  destruct u; unfold User.toggle_blocked; cbn -[negb];
    now rewrite negb_involutive.
Qed.

(** ** Logging in *)

Lemma find_the_one {A : Type} (p : A -> bool) (l : list A) (x : A) :
  In x l -> p x = true -> (forall y, In y l -> p y = true -> y = x) ->
  find p l = Some x.
Proof.
  intros Hin Hp Hone.
  destruct (find p l) as [y|] eqn:F.
  - apply find_some in F as [Hy Hpy]; f_equal; now apply Hone.
  - apply find_none with (x := x) in F; [congruence | exact Hin].
Qed.

Lemma find_login (us : list User.t) (u : User.t) :
  In u us -> uniqueIds User.email us ->
  find (fun x => (User.email x =? User.email u)%string
                 && (User.password x =? User.password u)%string) us = Some u.
Proof.
  intros Hin Hu; apply find_the_one; [exact Hin | now rewrite !String.eqb_refl|].
  intros y Hy Hp; apply andb_true_iff in Hp as [He _].
  apply String.eqb_eq in He; eapply uniqueIds_inj; eauto.
Qed.

(** A login that nobody's email and password match, and a login of a blocked
    user, raise their alert and change nothing: the current user, the route
    and the state are as before. *)
Theorem handleLogin_rejected (a : App) :
  (forall email password,
      (forall u, In u (users (state a)) ->
                 ~ (User.email u = email /\ User.password u = password)) ->
      handleLogin email password a = mkOutcome a [alertCredentials]) /\
  (forall u,
      In u (users (state a)) -> uniqueIds User.email (users (state a)) ->
      User.isBlocked u = true ->
      handleLogin (User.email u) (User.password u) a
        = mkOutcome a [alertBlocked]).
Proof.
  split.
  - intros email password Hnone; unfold handleLogin.
    replace (find _ (users (state a))) with (@None User.t); [reflexivity|].
    symmetry; apply find_none_iff; intros u Hu.
    apply andb_false_iff.
    destruct (String.eqb_spec (User.email u) email) as [E1|E1]; [|now left].
    destruct (String.eqb_spec (User.password u) password) as [E2|E2]; [|now right].
    exfalso; exact (Hnone u Hu (conj E1 E2)).
  - intros u Hin Hu Hb; unfold handleLogin.
    now rewrite (find_login _ u Hin Hu), Hb.
Qed.

Lemma handleLogin_rejected_witness :
  handleLogin "alice@pccoepune.org" "guess" aliceApp
    = mkOutcome aliceApp [alertCredentials] /\
  handleLogin "bob@pccoepune.org" "pw" (app (toggleBlockUser "u2" aliceApp))
    = mkOutcome (app (toggleBlockUser "u2" aliceApp)) [alertBlocked].
Proof.
  split.
  - destruct (handleLogin_rejected aliceApp) as [H _].
    apply H; intros u [<-|[<-|[]]] [_ E]; discriminate.
  - destruct (handleLogin_rejected (app (toggleBlockUser "u2" aliceApp)))
      as [_ H].
    apply (H (User.toggle_blocked bob)).
    + right; left; reflexivity.
    + repeat constructor; simpl; intuition discriminate.
    + reflexivity.
Defined.

(** A user who is not blocked and gives their email and password becomes
    the current user; the state is not changed and no alert is raised; the
    route is home when the year is set and there is a strong subject, and
    the profile page otherwise. *)
Theorem handleLogin_accepted (a : App) (u : User.t) :
  In u (users (state a)) -> uniqueIds User.email (users (state a)) ->
  User.isBlocked u = false ->
  let out := handleLogin (User.email u) (User.password u) a in
  alerts out = [] /\
  state (app out) = state a /\
  currentUserId (app out) = Some (User.id u) /\
  currentUser (app out) <> None /\
  ((exists y, User.year u = Some y /\ y <> EmptyString) /\
   User.strongSubjects u <> [] -> route (app out) = Route.home) /\
  (User.year u = None \/ User.year u = Some EmptyString \/
   User.strongSubjects u = [] -> route (app out) = Route.profile).
Proof.
  intros Hin Hu Hb out; subst out; unfold handleLogin.
  rewrite (find_login _ u Hin Hu), Hb.
  cbn [app alerts state currentUserId route setRoute setCurrentUserId].
  repeat split.
  - unfold currentUser; cbn [currentUserId state].
    intros F; apply find_none with (x := u) in F; [|exact Hin].
    now rewrite String.eqb_refl in F.
  - intros [(y & Ey & Hy) Hs]; rewrite Ey.
    apply String.eqb_neq in Hy; rewrite Hy.
    destruct (User.strongSubjects u); [congruence | reflexivity].
  - intros [E|[E|E]]; rewrite E; try reflexivity.
    destruct (User.year u) as [y|]; [destruct (y =? EmptyString)%string|];
      reflexivity.
Qed.

Lemma handleLogin_accepted_witness :
  currentUserId (app (handleLogin "bob@pccoepune.org" "pw" aliceApp))
    = Some "u2" /\
  route (app (handleLogin "bob@pccoepune.org" "pw" aliceApp)) = Route.home.
Proof.
  assert (Hin : In bob (users (state aliceApp))) by (right; left; reflexivity).
  assert (Hu : uniqueIds User.email (users (state aliceApp)))
    by (repeat constructor; simpl; intuition discriminate).
  destruct (handleLogin_accepted aliceApp bob Hin Hu eq_refl)
    as (_ & _ & Hc & _ & Hhome & _).
  split; [exact Hc|].
  apply Hhome; split; [exists "1st Year"; split; [reflexivity | discriminate]
                      | discriminate].
Defined.

(** ** Signing up, then logging in *)

Lemma find_app_new {A : Type} (p : A -> bool) (l : list A) (x : A) :
  (forall y, In y l -> p y = false) -> p x = true ->
  find p (l ++ [x]) = Some x.
Proof.
  induction l as [|y l IH]; intros Hl Hx; simpl; [now rewrite Hx|].
  rewrite (Hl y (or_introl eq_refl)); apply IH; [|exact Hx].
  intros z Hz; apply Hl; now right.
Qed.

(** After a successful sign-up the new user is the current user, and the
    same email and password log that user in again: no alert, the new id as
    current user, and the profile page as route, the profile being empty. *)
Theorem signup_then_login (email password newId : string) (a : App) :
  (exists p, email = p ++ "@pccoepune.org") ->
  (forall u, In u (users (state a)) -> User.email u <> email) ->
  let signedUp := app (handleSignup email password newId a) in
  let out := handleLogin email password (app (handleLogout signedUp)) in
  currentUserId signedUp = Some newId /\
  alerts out = [] /\
  currentUserId (app out) = Some newId /\
  route (app out) = Route.profile /\
  state (app out) = state signedUp.
Proof.
  intros Hdom Hnew signedUp out; subst signedUp out.
  apply endsWith_spec in Hdom.
  unfold handleSignup; rewrite Hdom; cbn [negb].
  replace (existsb _ (users (state a))) with false.
  2: { symmetry; apply not_true_is_false; intros Ex.
       apply existsb_email in Ex as (u & Hu & E); exact (Hnew u Hu E). }
  cbn [app state setState setRoute setCurrentUserId currentUserId users
       handleLogout User.id].
  unfold handleLogin;
    cbn [app state setState setRoute setCurrentUserId currentUserId users].
  rewrite find_app_new.
  - cbn; repeat split.
  - intros u Hu; apply andb_false_iff; left; apply String.eqb_neq; auto.
  - cbn [User.email User.password]; now rewrite !String.eqb_refl.
Qed.

Lemma signup_then_login_witness :
  currentUserId
    (app (handleLogin "carol@pccoepune.org" "pw"
            (app (handleLogout
                    (app (handleSignup "carol@pccoepune.org" "pw" "u3"
                                       aliceApp))))))
    = Some "u3".
Proof.
  destruct (signup_then_login "carol@pccoepune.org" "pw" "u3" aliceApp)
    as (_ & _ & H & _).
  - exists "carol"; reflexivity.
  - intros u [<-|[<-|[]]]; discriminate.
  - exact H.
Defined.

(** ** Blocking and the current user *)

Lemma find_map_same {A : Type} (p : A -> bool) (f : A -> A) (l : list A) :
  (forall x, p (f x) = p x) ->
  find p (map f l) = option_map f (find p l).
Proof.
  intros H; induction l as [|x l IH]; simpl; [reflexivity|].
  rewrite H; destruct (p x); [reflexivity | exact IH].
Qed.

(** Blocking bites at the next login only.  A user who is blocked while
    logged in stays the current user (with the blocked flag set), and the
    same email and password are refused from then on. *)
Theorem block_takes_effect_at_login (a : App) (u : User.t) :
  In u (users (state a)) -> uniqueIds User.email (users (state a)) ->
  User.isBlocked u = false ->
  let blocked := app (toggleBlockUser (User.id u) a) in
  currentUserId blocked = currentUserId a /\
  (currentUser a = Some u ->
   currentUser blocked = Some (User.toggle_blocked u)) /\
  handleLogin (User.email u) (User.password u) blocked
    = mkOutcome blocked [alertBlocked].
Proof.
  intros Hin Hu Hb blocked; subst blocked.
  set (f := fun x => if (User.id x =? User.id u)%string
                     then User.toggle_blocked x else x).
  assert (Hid : forall x, User.id (f x) = User.id x)
    by (intros x; unfold f; now destruct (_ =? _)%string).
  assert (Hem : forall x, User.email (f x) = User.email x)
    by (intros x; unfold f; now destruct (_ =? _)%string).
  assert (Hfu : f u = User.toggle_blocked u)
    by (unfold f; now rewrite String.eqb_refl).
  split; [reflexivity|]; split.
  - unfold currentUser, toggleBlockUser;
      cbn [app state setState users currentUserId].
    destruct (currentUserId a) as [c|]; [|discriminate].
    intros F; fold f.
    rewrite find_map_same by (intros x; now rewrite Hid).
    now rewrite F; cbn; rewrite Hfu.
  - assert (Hin' : In (User.toggle_blocked u)
                      (users (state (app (toggleBlockUser (User.id u) a))))).
    { unfold toggleBlockUser; cbn [app state setState users]; fold f.
      rewrite <- Hfu; now apply in_map. }
    assert (Hu' : uniqueIds User.email
                    (users (state (app (toggleBlockUser (User.id u) a))))).
    { unfold toggleBlockUser, uniqueIds; cbn [app state setState users]; fold f.
      rewrite map_map.
      erewrite map_ext; [exact Hu | exact Hem]. }
    pose proof (find_login _ _ Hin' Hu') as F.
    cbn [User.toggle_blocked User.email User.password] in F.
    unfold handleLogin; rewrite F.
    cbn [User.toggle_blocked User.isBlocked]; now rewrite Hb.
Qed.

Lemma block_takes_effect_at_login_witness :
  currentUser (app (toggleBlockUser "u1" aliceApp))
    = Some (User.toggle_blocked alice) /\
  alerts (handleLogin "alice@pccoepune.org" "pw"
                      (app (toggleBlockUser "u1" aliceApp)))
    = [alertBlocked].
Proof.
  assert (Hin : In alice (users (state aliceApp))) by (left; reflexivity).
  assert (Hu : uniqueIds User.email (users (state aliceApp)))
    by (repeat constructor; simpl; intuition discriminate).
  destruct (block_takes_effect_at_login aliceApp alice Hin Hu eq_refl)
    as (_ & Hcur & Hlogin).
  split; [apply Hcur; reflexivity|].
  cbn [alice User.email User.password User.id] in Hlogin.
  now rewrite Hlogin.
Defined.

(** * Invariants of the runs *)

Ltac same_state :=
  unfold handleLogout;
  cbn [app state setState setAuthMode setRoute setCurrentUserId];
  apply sc_none.

Lemma handle_stateChange (e : Event) (a : App) :
  stateChange a e (state (app (handle e a))).
Proof.
  destruct e; cbn [handle].
  - unfold handleSignup.
    destruct (endsWith email "@pccoepune.org") eqn:Ed; cbn [negb];
      [|same_state].
    destruct (existsb _ (users (state a))) eqn:Ex; [same_state|].
    cbn [app state setState setRoute setCurrentUserId].
    apply sc_signup; [exact Ed|].
    intros u Hu E.
    assert (Ex' : existsb (fun u => (User.email u =? email)%string)
                          (users (state a)) = true)
      by (apply existsb_email; eauto).
    congruence.
  - unfold handleLogin.
    destruct (find _ _) as [u|]; [destruct (User.isBlocked u)|]; same_state.
  - same_state.
  - unfold updateProfile.
    destruct (currentUser a) as [cu|] eqn:Ecu; [|same_state].
    cbn [app state setState]; now apply sc_profile.
  - unfold createQuery.
    destruct (currentUser a) as [cu|] eqn:Ecu; [|same_state].
    cbn [app state setState]; now apply sc_create.
  - unfold acceptQuery.
    destruct (currentUser a) as [cu|] eqn:Ecu; [|same_state].
    destruct (find _ (queries (state a))) as [q|] eqn:Fq; [|same_state].
    destruct (String.eqb_spec (Query.askerId q) (User.id cu)) as [E|E];
      [same_state|].
    destruct (find _ (sessions (state a))) as [s|] eqn:Fs; [same_state|].
    cbn [app state setState]; apply sc_accept; try assumption.
    intros s Hs Es; apply find_none with (x := s) in Fs; [|exact Hs].
    apply String.eqb_neq in Fs; contradiction.
  - unfold markSessionComplete; cbn [app state setState]; apply sc_mark.
  - unfold rateSession.
    destruct (find _ (sessions (state a))) as [s|] eqn:F.
    + destruct forMentor; cbn [app state setState];
        [now apply sc_rate_mentor | apply sc_rate; discriminate].
    + cbn [app state setState]; apply sc_rate; intros _ s Hs.
      apply find_none with (x := s) in F; [|exact Hs].
      now apply String.eqb_neq.
  - unfold toggleBlockUser; cbn [app state setState]; apply sc_toggle.
  - same_state.
  - same_state.
Qed.

Lemma reachableFresh_reachable (a : App) : reachableFresh a -> reachable a.
Proof.
  induction 1 as [|a now e _ IH Hoff _]; [constructor | now apply reach_step with now].
Qed.

(** Induction over the states of the runs. *)
Lemma reachable_state_ind (P : State -> Prop) :
  P initialState ->
  (forall a now e st',
      reachable a -> P (state a) -> offered now a e -> stateChange a e st' ->
      ratingsInvariant (sessions st') ->
      P st') ->
  forall a, reachable a -> P (state a).
Proof.
  intros Hinit Hstep a Hr; induction Hr as [|a now e Hr IH Hoff];
    [exact Hinit|].
  eapply Hstep; eauto using handle_stateChange.
  apply reachable_invariant; now apply reach_step with now.
Qed.

Lemma updateUserStats_sessions (userId : string) (st : State) :
  sessions (updateUserStats userId st) = sessions st.
Proof. reflexivity. Qed.

Lemma Forall_map_keep {A : Type} (P : A -> Prop) (f : A -> A) (l : list A) :
  (forall x, P x -> P (f x)) -> Forall P l -> Forall P (map f l).
Proof.
  intros Hf H; induction H; simpl; constructor; auto.
Qed.

(** ** One session per query *)

(** In every state of a run no two sessions reference the same query, and
    no session has its mentor as mentee. *)
Theorem one_session_per_query (a : App) :
  reachable a ->
  NoDup (map Session.queryId (sessions (state a))) /\
  Forall (fun s => Session.mentorId s <> Session.menteeId s)
         (sessions (state a)).
Proof.
  apply (reachable_state_ind
           (fun st => NoDup (map Session.queryId (sessions st)) /\
                      Forall (fun s => Session.mentorId s <> Session.menteeId s)
                             (sessions st))).
  - split; constructor.
  - intros b now e st' _ [Hnd Hne] _ Hc _.
    destruct Hc as [e | | | | queryId env cu q Hcu Fq Hself Hfree
                    | sessionId role didHappen | sessionId r forMentor _
                    | sessionId r s _ | ];
      try (rewrite ?updateUserStats_sessions, ?setRating_sessions);
      cbn [sessions]; try (split; assumption).
    + split.
      * rewrite map_app; apply NoDup_snoc; [exact Hnd|].
        cbn; intros Hin; apply in_map_iff in Hin as (s & Es & Hs).
        exact (Hfree s Hs Es).
      * apply Forall_app; split; [exact Hne|].
        repeat constructor; cbn; congruence.
    + split.
      * rewrite map_map; erewrite map_ext; [exact Hnd|].
        intros s; now destruct (_ =? _)%string.
      * apply Forall_map_keep; [|exact Hne].
        intros s Hs; now destruct (_ =? _)%string.
    + split.
      * rewrite map_map; erewrite map_ext; [exact Hnd|].
        intros s; destruct (_ =? _)%string; [destruct forMentor|]; reflexivity.
      * apply Forall_map_keep; [|exact Hne].
        intros s Hs; destruct (_ =? _)%string; [destruct forMentor|]; exact Hs.
    + split.
      * rewrite map_map; erewrite map_ext; [exact Hnd|].
        intros x; now destruct (_ =? _)%string.
      * apply Forall_map_keep; [|exact Hne].
        intros x Hx; now destruct (_ =? _)%string.
Qed.

Lemma one_session_per_query_witness :
  NoDup (map Session.queryId (sessions (state sampleRun))) /\
  Forall (fun s => Session.mentorId s <> Session.menteeId s)
         (sessions (state sampleRun)).
Proof. exact (one_session_per_query sampleRun sampleRun_reachable). Defined.

(** ** Accounts *)

(** What an event can do to the users: nothing, append the account of a
    sign-up, or rewrite users in place, keeping id, email, password and role
    of each. *)
Lemma stateChange_users (a : App) (e : Event) (st' : State) :
  stateChange a e st' ->
  users st' = users (state a) \/
  (exists email password newId,
      e = EvSignup email password newId /\
      endsWith email "@pccoepune.org" = true /\
      (forall u, In u (users (state a)) -> User.email u <> email) /\
      users st' =
        (users (state a) ++
           [User.mk newId email password (dotsToSpaces (beforeAt email))
                    None None [] EmptyString None
                    (if (List.length (users (state a)) =? 0)%nat
                     then Role.admin else Role.student)
                    0 1 0%Qc 0 false])%list) \/
  (exists f : User.t -> User.t,
      users st' = map f (users (state a)) /\
      forall u, User.id (f u) = User.id u /\ User.email (f u) = User.email u /\
                User.password (f u) = User.password u /\
                User.role (f u) = User.role u).
Proof.
  intros Hc.
  destruct Hc as [e | email password newId Hd Hn | updates cu _ | | | |
                  | sessionId r s _ | userId]; cbn [users]; auto.
  - right; left; exists email, password, newId; auto.
  - right; right; eexists; split; [reflexivity|].
    intros u; cbn beta; destruct (User.id u =? _)%string; repeat split.
  - right; right; rewrite updateUserStats_users; cbn [users setRating].
    eexists; split; [reflexivity|].
    intros u; cbn beta; destruct (User.id u =? _)%string; repeat split.
  - right; right; eexists; split; [reflexivity|].
    intros u; cbn beta; destruct (User.id u =? _)%string; repeat split.
Qed.

(** In every state of a run the emails of the accounts are pairwise
    different and end with the domain of the institution. *)
Theorem emails_unique_and_institutional (a : App) :
  reachable a ->
  uniqueIds User.email (users (state a)) /\
  forall u, In u (users (state a)) ->
            exists p, User.email u = p ++ "@pccoepune.org".
Proof.
  apply (reachable_state_ind
           (fun st => uniqueIds User.email (users st) /\
                      forall u, In u (users st) ->
                                exists p, User.email u = p ++ "@pccoepune.org")).
  - split; [constructor | intros u []].
  - intros b now e st' _ [Hu Hd] _ Hc _.
    destruct (stateChange_users _ _ _ Hc)
      as [-> | [(email & password & newId & _ & Hdom & Hnew & ->)
               | (f & -> & Hf)]].
    + split; assumption.
    + split.
      * unfold uniqueIds; rewrite map_app; apply NoDup_snoc; [exact Hu|].
        cbn; intros Hin; apply in_map_iff in Hin as (u & Eu & Hin).
        exact (Hnew u Hin Eu).
      * intros u Hin; apply in_app_iff in Hin as [Hin|[<-|[]]]; [auto|].
        cbn; now apply endsWith_spec.
    + split.
      * unfold uniqueIds; rewrite map_map; erewrite map_ext; [exact Hu|].
        intros u; apply Hf.
      * intros u' Hin; apply in_map_iff in Hin as (u & <- & Hin).
        destruct (Hf u) as (_ & -> & _); auto.
Qed.

Lemma emails_unique_and_institutional_witness :
  uniqueIds User.email (users (state sampleRun)) /\
  forall u, In u (users (state sampleRun)) ->
            exists p, User.email u = p ++ "@pccoepune.org".
Proof.
  exact (emails_unique_and_institutional sampleRun sampleRun_reachable).
Defined.

(** In every state of a run the first account is the administrator and
    every other account is a student: roles are given at sign-up and never
    change. *)
Theorem first_account_is_the_admin (a : App) :
  reachable a ->
  users (state a) = [] \/
  exists first rest,
    users (state a) = first :: rest /\
    User.role first = Role.admin /\
    forall u, In u rest -> User.role u = Role.student.
Proof.
  apply (reachable_state_ind
           (fun st => users st = [] \/
                      exists first rest,
                        users st = first :: rest /\
                        User.role first = Role.admin /\
                        forall u, In u rest -> User.role u = Role.student)).
  - now left.
  - intros b now e st' _ IH _ Hc _.
    destruct (stateChange_users _ _ _ Hc)
      as [-> | [(email & password & newId & _ & _ & _ & ->)
               | (f & -> & Hf)]].
    + exact IH.
    + right; destruct IH as [->|(first & rest & -> & Hadm & Hst)].
      * eexists _, []; split; [reflexivity|]; split; [reflexivity|].
        intros u [].
      * eexists first, _; split; [reflexivity|]; split; [exact Hadm|].
        intros u Hin; apply in_app_iff in Hin as [Hin|[<-|[]]];
          [auto | reflexivity].
    + destruct IH as [->|(first & rest & -> & Hadm & Hst)]; [now left|].
      right; exists (f first), (map f rest); split; [reflexivity|].
      split; [destruct (Hf first) as (_ & _ & _ & ->); exact Hadm|].
      intros u' Hin; apply in_map_iff in Hin as (u & <- & Hin).
      destruct (Hf u) as (_ & _ & _ & ->); auto.
Qed.

Lemma first_account_is_the_admin_witness :
  map User.role (users (state sampleRun)) = [Role.admin; Role.student].
Proof.
  destruct (first_account_is_the_admin sampleRun sampleRun_reachable)
    as [E|(first & rest & E & Hadm & Hst)]; [discriminate E|].
  reflexivity.
Defined.

(** ** Statistics stay sane *)

Lemma mentorRatings_in_range (userId : string) (ss : list Session.t) :
  Forall ratingsWellFormed ss ->
  Forall (fun r => 1 <= r <= 5) (mentorRatings userId ss).
Proof.
  unfold mentorRatings; induction 1 as [|s ss Hs _ IH]; simpl; [constructor|].
  apply Forall_app; split; [|exact IH].
  destruct Hs as (Hm & _).
  destruct (Session.ratingForMentor s) as [r|]; [|constructor].
  destruct (Session.status s); try constructor.
  destruct (_ =? _)%string; repeat constructor; apply Hm.
Qed.

Lemma sumZ_bounds (rs : list Z) :
  Forall (fun r => 1 <= r <= 5) rs ->
  Z.of_nat (List.length rs) <= sumZ rs <= 5 * Z.of_nat (List.length rs).
Proof.
  induction 1 as [|r rs Hr _ IH]; cbn [sumZ fold_right List.length]; [lia|].
  fold (sumZ rs); lia.
Qed.

Lemma recomputed_sane (userId : string) (ss : list Session.t) :
  Forall ratingsWellFormed ss -> statsSane (recomputed userId ss).
Proof.
  intros Hwf.
  pose proof (sumZ_bounds _ (mentorRatings_in_range userId ss Hwf)) as Hb.
  unfold statsSane, recomputed; cbn [st_xp st_ratingAvg st_ratingCount st_level].
  set (rs := mentorRatings userId ss) in *.
  rewrite sumZ_map_scale.
  split; [reflexivity|].
  split.
  { rewrite computeLevel_cases.
    repeat match goal with
           | |- context [ ?x <? ?y ] => destruct (Z.ltb_spec x y)
           end; lia. }
  split; [lia|].
  split; [exists (sumZ rs); lia | lia].
Qed.

(** In every state of a run each user's level is the tier of their xp and
    lies in 1..5, the xp is a multiple of 10, and each counted rating
    contributed between 10 and 50 xp. *)
Theorem stored_statistics_are_sane (a : App) :
  reachable a ->
  forall u, In u (users (state a)) -> statsSane (statsOf u).
Proof.
  apply (reachable_state_ind
           (fun st => forall u, In u (users st) -> statsSane (statsOf u))).
  - intros u [].
  - intros b now e st' _ IH _ Hc Hinv u' Hin.
    destruct Hc as [e | email password newId Hd Hn | updates cu _ | | | |
                    | sessionId r s _ | userId]; cbn [users] in Hin; auto.
    + apply in_app_iff in Hin as [Hin|[<-|[]]]; [auto|].
      split; [reflexivity|]; cbn; split; [lia|]; split; [lia|].
      split; [exists 0; reflexivity | lia].
    + apply in_map_iff in Hin as (u & <- & Hin).
      destruct (_ =? _)%string; [|auto].
      exact (IH u Hin).
    + rewrite updateUserStats_users in Hin; cbn [users setRating] in Hin.
      apply in_map_iff in Hin as (u & <- & Hin).
      destruct (_ =? _)%string; [|auto].
      rewrite updateUserStats_sessions in Hinv.
      exact (recomputed_sane _ _ (proj1 Hinv)).
    + apply in_map_iff in Hin as (u & <- & Hin).
      destruct (_ =? _)%string; [|auto].
      exact (IH u Hin).
Qed.

Lemma stored_statistics_are_sane_witness :
  Forall (fun u => statsSane (statsOf u)) (users (state sampleRun)).
Proof.
  apply Forall_forall.
  exact (stored_statistics_are_sane sampleRun sampleRun_reachable).
Defined.

(** * Invariants of the runs with fresh identifiers *)

Lemma reachableFresh_state_ind (P : State -> Prop) :
  P initialState ->
  (forall a now e st',
      reachableFresh a -> P (state a) -> offered now a e -> freshIds a e ->
      stateChange a e st' -> P st') ->
  forall a, reachableFresh a -> P (state a).
Proof.
  intros Hinit Hstep a Hr; induction Hr as [|a now e Hr IH Hoff Hfresh];
    [exact Hinit|].
  eapply Hstep; eauto using handle_stateChange.
Qed.

Lemma map_map_if {A B : Type} (key : A -> B) (p : A -> bool) (f : A -> A)
      (l : list A) :
  (forall x, key (f x) = key x) ->
  map key (map (fun x => if p x then f x else x) l) = map key l.
Proof.
  intros H; rewrite map_map; apply map_ext; intros x.
  destruct (p x); [apply H | reflexivity].
Qed.

Lemma currentUser_In (a : App) (cu : User.t) :
  currentUser a = Some cu -> In cu (users (state a)).
Proof.
  unfold currentUser; destruct (currentUserId a); [|discriminate].
  intros F; now apply find_some in F.
Qed.

(** The session list after an event carries the same ids, queries, mentors
    and mentees, except for the session an acceptance appends. *)
Lemma stateChange_session_keys {B : Type} (key : Session.t -> B)
      (a : App) (e : Event) (st' : State) :
  (forall s x, key (Session.with_status s x) = key s) ->
  (forall s r, key (Session.with_ratingForMentor s r) = key s) ->
  (forall s r, key (Session.with_ratingForMentee s r) = key s) ->
  stateChange a e st' ->
  map key (sessions st') = map key (sessions (state a)) \/
  exists queryId env cu q,
    e = EvAcceptQuery queryId env /\
    currentUser a = Some cu /\
    find (fun x => (Query.id x =? queryId)%string) (queries (state a)) = Some q /\
    map key (sessions st') =
      (map key (sessions (state a)) ++
         [key (Session.mk (env_sessionId env) queryId (User.id cu)
                          (Query.askerId q) (scheduledTime env)
                          (modeOf (Query.preferredMode q))
                          (locationOf (Query.preferredMode q))
                          SessionStatus.Confirmed None None)])%list.
Proof.
  intros Hs Hm He Hc.
  destruct Hc as [e | | | | queryId env cu q Hcu Fq _ _
                  | sessionId role didHappen | sessionId r forMentor _
                  | sessionId r s _ | ];
    rewrite ?updateUserStats_sessions, ?setRating_sessions;
    cbn [sessions]; auto.
  - right; exists queryId, env, cu, q; rewrite map_app; auto.
  - left; apply map_map_if; intros s; apply Hs.
  - left; apply map_map_if; intros s; destruct forMentor; [apply Hm | apply He].
  - left; apply map_map_if; intros x; apply Hm.
Qed.

Lemma stateChange_query_keys {B : Type} (key : Query.t -> B)
      (a : App) (e : Event) (st' : State) :
  (forall q x, key (Query.with_status q x) = key q) ->
  stateChange a e st' ->
  map key (queries st') = map key (queries (state a)) \/
  exists data newId now cu,
    e = EvCreateQuery data newId now /\
    currentUser a = Some cu /\
    map key (queries st') =
      key (Query.mk newId (qd_title data) (qd_description data)
                    (qd_subjectTags data) (qd_preferredMentorType data)
                    (qd_preferredMode data) (qd_timePreference data)
                    QueryStatus.Open now (User.id cu))
      :: map key (queries (state a)).
Proof.
  intros Hk Hc.
  destruct Hc as [e | | | data newId now cu Hcu | | | | | ]; cbn [queries]; auto.
  - right; exists data, newId, now, cu; auto.
  - left; apply map_map_if; intros x; apply Hk.
Qed.

Lemma stateChange_user_ids (a : App) (e : Event) (st' : State) :
  stateChange a e st' ->
  userIds st' = userIds (state a) \/
  exists email password newId,
    e = EvSignup email password newId /\
    userIds st' = (userIds (state a) ++ [newId])%list.
Proof.
  intros Hc; unfold userIds.
  destruct (stateChange_users _ _ _ Hc)
    as [-> | [(email & password & newId & -> & _ & _ & ->) | (f & -> & Hf)]].
  - now left.
  - right; exists email, password, newId; rewrite map_app; auto.
  - left; rewrite map_map; apply map_ext; intros u; apply Hf.
Qed.

Lemma referencesIntact_step (a : App) (e : Event) (st' : State) :
  referencesIntact (state a) -> freshIds a e -> stateChange a e st' ->
  referencesIntact st'.
Proof.
  intros (HU & HQ & HA & HM & HK) Hfresh Hc.
  assert (Hgrow : incl (userIds (state a)) (userIds st')).
  { destruct (stateChange_user_ids _ _ _ Hc) as [->|(? & ? & ? & _ & ->)];
      [apply incl_refl | now apply incl_appl, incl_refl]. }
  assert (Hkeys : incl (queryKeys (state a)) (queryKeys st')).
  { unfold queryKeys.
    destruct (stateChange_query_keys
                (fun q => (Query.id q, Query.askerId q)) _ _ _
                (fun _ _ => eq_refl) Hc) as [->|(? & ? & ? & ? & _ & _ & ->)];
      [apply incl_refl | now apply incl_tl, incl_refl]. }
  repeat split.
  - destruct (stateChange_user_ids _ _ _ Hc)
      as [->|(email & password & newId & -> & ->)]; [exact HU|].
    apply NoDup_snoc; [exact HU|].
    intros Hin; apply in_map_iff in Hin as (u & Eu & Hu).
    exact (Hfresh u Hu Eu).
  - destruct (stateChange_query_keys Query.id _ _ _ (fun _ _ => eq_refl) Hc)
      as [->|(data & newId & now & cu & -> & _ & ->)]; [exact HQ|].
    constructor; [|exact HQ].
    cbn; intros Hin; apply in_map_iff in Hin as (q & Eq & Hq).
    exact (Hfresh q Hq Eq).
  - destruct (stateChange_query_keys Query.askerId _ _ _ (fun _ _ => eq_refl) Hc)
      as [->|(data & newId & now & cu & -> & Hcu & ->)];
      [now apply incl_tran with (userIds (state a))|].
    apply incl_cons; [|now apply incl_tran with (userIds (state a))].
    apply Hgrow; cbn; apply in_map; now apply currentUser_In.
  - destruct (stateChange_session_keys Session.mentorId _ _ _
                (fun _ _ => eq_refl) (fun _ _ => eq_refl) (fun _ _ => eq_refl) Hc)
      as [->|(queryId & env & cu & q & -> & Hcu & _ & ->)];
      [now apply incl_tran with (userIds (state a))|].
    apply incl_app; [now apply incl_tran with (userIds (state a))|].
    apply incl_cons; [|apply incl_nil_l].
    apply Hgrow; cbn; apply in_map; now apply currentUser_In.
  - destruct (stateChange_session_keys
                (fun s => (Session.queryId s, Session.menteeId s)) _ _ _
                (fun _ _ => eq_refl) (fun _ _ => eq_refl) (fun _ _ => eq_refl) Hc)
      as [->|(queryId & env & cu & q & -> & _ & Fq & ->)];
      [now apply incl_tran with (queryKeys (state a))|].
    apply incl_app; [now apply incl_tran with (queryKeys (state a))|].
    apply incl_cons; [|apply incl_nil_l].
    apply Hkeys; cbn; apply find_some in Fq as [Hq Eq].
    apply String.eqb_eq in Eq; subst queryId.
    unfold queryKeys.
    exact (in_map (fun q => (Query.id q, Query.askerId q)) _ _ Hq).
Qed.

Lemma reachableFresh_references (a : App) :
  reachableFresh a -> referencesIntact (state a).
Proof.
  apply (reachableFresh_state_ind referencesIntact).
  - repeat split; try constructor; intros x [].
  - intros b now e st' _ IH _ Hfresh Hc.
    now apply referencesIntact_step with b e.
Qed.

(** In every state of a run with fresh identifiers, user ids and query ids
    are unique, and every session references a query of the collection
    whose asker is its mentee, with mentor and mentee both users. *)
Theorem references_are_intact (a : App) :
  reachableFresh a ->
  uniqueIds User.id (users (state a)) /\
  uniqueIds Query.id (queries (state a)) /\
  forall s, In s (sessions (state a)) ->
            exists q mentor mentee,
              In q (queries (state a)) /\
              In mentor (users (state a)) /\
              In mentee (users (state a)) /\
              Query.id q = Session.queryId s /\
              Query.askerId q = Session.menteeId s /\
              User.id mentor = Session.mentorId s /\
              User.id mentee = Session.menteeId s.
Proof.
  intros Hr.
  destruct (reachableFresh_references a Hr) as (HU & HQ & HA & HM & HK).
  split; [exact HU|]; split; [exact HQ|].
  intros s Hs.
  assert (Hk : In (Session.queryId s, Session.menteeId s) (queryKeys (state a)))
    by (apply HK;
        exact (in_map (fun s => (Session.queryId s, Session.menteeId s)) _ _ Hs)).
  apply in_map_iff in Hk as (q & Eq & Hq).
  injection Eq as Eid Easker.
  assert (Hm : In (Session.mentorId s) (userIds (state a)))
    by (apply HM; now apply in_map).
  apply in_map_iff in Hm as (mentor & Em & Hmentor).
  assert (He : In (Query.askerId q) (userIds (state a)))
    by (apply HA; now apply in_map).
  apply in_map_iff in He as (mentee & Ee & Hmentee).
  exists q, mentor, mentee; repeat split; auto; congruence.
Qed.

Lemma sampleRun_reachableFresh : reachableFresh sampleRun.
Proof.
  unfold sampleRun, sampleEvents, runEvents; cbn [fold_left snd].
  apply (fresh_step _ 4000200).
  apply (fresh_step _ 4000100).
  apply (fresh_step _ 4000000).
  apply (fresh_step _ 5000).
  apply (fresh_step _ 500).
  apply (fresh_step _ 400).
  apply (fresh_step _ 300).
  apply (fresh_step _ 200).
  apply (fresh_step _ 100).
  all: try exact I.
  - apply fresh_init.
  - intros u [].
  - intros u [<-|[]]; discriminate.
  - intros q [].
  - intros s [].
  - eexists _, _; split; [reflexivity|].
    split; [left; reflexivity|]; repeat split.
  - eexists _, _, SessionRole.mentee; split; [reflexivity|].
    split; [left; reflexivity|]; repeat split.
    cbn; tauto.
Qed.

Lemma references_are_intact_witness :
  uniqueIds User.id (users (state sampleRun)) /\
  uniqueIds Query.id (queries (state sampleRun)) /\
  Forall (fun s => exists q, In q (queries (state sampleRun)) /\
                             Query.id q = Session.queryId s /\
                             Query.askerId q = Session.menteeId s)
         (sessions (state sampleRun)).
Proof.
  destruct (references_are_intact sampleRun sampleRun_reachableFresh)
    as (HU & HQ & HS).
  split; [exact HU|]; split; [exact HQ|].
  apply Forall_forall; intros s Hs.
  destruct (HS s Hs) as (q & _ & _ & Hq & _ & _ & Eid & Easker & _).
  now exists q.
Defined.

(** ** A query is In Progress exactly when it has a session *)

Lemma in_progress_iff_referenced (a : App) :
  reachableFresh a ->
  forall q, In q (queries (state a)) ->
            (Query.status q = QueryStatus.InProgress <->
             In (Query.id q) (map Session.queryId (sessions (state a)))).
Proof.
  apply (reachableFresh_state_ind
           (fun st => forall q, In q (queries st) ->
                        (Query.status q = QueryStatus.InProgress <->
                         In (Query.id q) (map Session.queryId (sessions st)))));
    [intros q []|].
  intros b now e st' Hr IH _ Hfresh Hc q Hq.
  pose proof (reachableFresh_references b Hr) as (_ & _ & _ & _ & HK).
  destruct Hc as [e | | | data newId now' cu Hcu
                  | queryId env cu q0 Hcu Fq Hself Hfree
                  | sessionId role didHappen | sessionId r forMentor _
                  | sessionId r s _ | ];
    rewrite ?updateUserStats_sessions, ?setRating_sessions;
    cbn [queries sessions] in Hq |- *; auto.
  - destruct Hq as [<-|Hq]; [|auto].
    cbn; split; [discriminate|].
    intros Hin; exfalso.
    apply in_map_iff in Hin as (s & Es & Hs).
    assert (Hk : In (Session.queryId s, Session.menteeId s) (queryKeys (state b)))
      by (apply HK;
          exact (in_map (fun s => (Session.queryId s, Session.menteeId s)) _ _ Hs)).
    apply in_map_iff in Hk as (q1 & E1 & Hq1).
    injection E1 as E1 _.
    apply (Hfresh q1 Hq1); congruence.
  - apply in_map_iff in Hq as (q1 & <- & Hq1).
    rewrite map_app, in_app_iff; cbn.
    destruct (String.eqb_spec (Query.id q1) queryId) as [E|E]; cbn.
    + split; [intros _; right; left; now rewrite E | reflexivity].
    + rewrite (IH q1 Hq1); split; [tauto|].
      intros [H|[H|[]]]; [exact H | congruence].
  - rewrite map_map_if by (intros; reflexivity); auto.
  - rewrite map_map_if by (intros s; now destruct forMentor); auto.
  - rewrite map_map_if by (intros; reflexivity); auto.
Qed.

(** In every state of a run with fresh identifiers a query is In Progress
    if and only if a session references it: no query is In Progress without
    a session, no session belongs to an Open query. *)
Theorem query_in_progress_iff_session (a : App) :
  reachableFresh a ->
  forall q, In q (queries (state a)) ->
            (Query.status q = QueryStatus.InProgress <->
             exists s, In s (sessions (state a)) /\
                       Session.queryId s = Query.id q).
Proof.
  intros Hr q Hq.
  rewrite (in_progress_iff_referenced a Hr q Hq), in_map_iff.
  split; intros (s & H1 & H2); exists s; tauto.
Qed.

Lemma query_in_progress_iff_session_witness :
  Forall (fun q => Query.status q = QueryStatus.InProgress /\
                   exists s, In s (sessions (state sampleRun)) /\
                             Session.queryId s = Query.id q)
         (queries (state sampleRun)).
Proof.
  apply Forall_forall; intros q Hq.
  pose proof (query_in_progress_iff_session sampleRun sampleRun_reachableFresh
                                            q Hq) as H.
  assert (E : Query.status q = QueryStatus.InProgress)
    by (destruct Hq as [<-|[]]; reflexivity).
  split; [exact E | now apply H].
Defined.

(** ** The stored statistics never drift from the sessions *)

Lemma mentorRatings_cons (u : string) (s : Session.t) (ss : list Session.t) :
  mentorRatings u (s :: ss) = (mentorRatings u [s] ++ mentorRatings u ss)%list.
Proof. unfold mentorRatings; cbn [flat_map]; now rewrite app_nil_r. Qed.

Lemma mentorRatings_app (u : string) (l1 l2 : list Session.t) :
  mentorRatings u (l1 ++ l2) = (mentorRatings u l1 ++ mentorRatings u l2)%list.
Proof. apply flat_map_app. Qed.

Lemma mentorRatings_map_if (u : string) (p : Session.t -> bool)
      (f : Session.t -> Session.t) (ss : list Session.t) :
  (forall s, In s ss -> p s = true ->
             mentorRatings u [f s] = mentorRatings u [s]) ->
  mentorRatings u (map (fun s => if p s then f s else s) ss)
  = mentorRatings u ss.
Proof.
  induction ss as [|s ss IH]; intros H; [reflexivity|].
  cbn [map]; rewrite mentorRatings_cons, (mentorRatings_cons u s), IH.
  - f_equal; destruct (p s) eqn:E; [|reflexivity].
    apply H; [now left | exact E].
  - intros x Hx; apply H; now right.
Qed.

Lemma mentorRatings_other_mentor (u : string) (ss : list Session.t) :
  ~ In u (map Session.mentorId ss) -> mentorRatings u ss = [].
Proof.
  induction ss as [|s ss IH]; intros Hn; [reflexivity|].
  rewrite mentorRatings_cons, IH by (intros H; apply Hn; now right).
  rewrite app_nil_r; unfold mentorRatings; cbn [flat_map].
  destruct (String.eqb_spec (Session.mentorId s) u) as [E|E];
    [exfalso; apply Hn; left; exact E|].
  destruct (Session.ratingForMentor s), (Session.status s); reflexivity.
Qed.

Lemma mentorRatings_unrated (u : string) (s : Session.t) :
  Session.ratingForMentor s = None -> mentorRatings u [s] = [].
Proof. intros E; unfold mentorRatings; cbn [flat_map]; now rewrite E. Qed.

Lemma mentorRatings_not_mentor (u : string) (s : Session.t) :
  Session.mentorId s <> u -> mentorRatings u [s] = [].
Proof.
  intros E; apply String.eqb_neq in E.
  unfold mentorRatings; cbn [flat_map]; rewrite E.
  destruct (Session.ratingForMentor s), (Session.status s); reflexivity.
Qed.

Lemma recomputed_ext (u : string) (ss ss' : list Session.t) :
  mentorRatings u ss' = mentorRatings u ss ->
  recomputed u ss' = recomputed u ss.
Proof. intros E; unfold recomputed; now rewrite E. Qed.

(** In every state of a run with fresh identifiers the statistics stored in
    each user are the ones a recomputation from the sessions gives: xp,
    ratingAvg, ratingCount and level never drift from the sessions. *)
Theorem statistics_never_drift (a : App) :
  reachableFresh a ->
  forall u, In u (users (state a)) ->
            statsOf u = recomputed (User.id u) (sessions (state a)).
Proof.
  apply (reachableFresh_state_ind
           (fun st => forall u, In u (users st) ->
                                statsOf u = recomputed (User.id u) (sessions st)));
    [intros u []|].
  intros b now e st' Hr IH Hoff Hfresh Hc u' Hin.
  pose proof (reachableFresh_references b Hr) as (_ & _ & _ & HM & _).
  pose proof (reachable_invariant b (reachableFresh_reachable b Hr)) as [Hwf Huniq].
  rewrite Forall_forall in Hwf.
  destruct Hc as [e | email password newId Hd Hn | updates cu _ | |
                  queryId env cu q0 Hcu Fq Hself Hfree
                  | sessionId role didHappen | sessionId r forMentor Hnone
                  | sessionId r s0 Fs | userId ];
    rewrite ?updateUserStats_sessions, ?setRating_sessions;
    cbn [users sessions] in Hin |- *; auto.
  - (* sign-up *)
    apply in_app_iff in Hin as [Hin|[<-|[]]]; [auto|].
    cbn [User.id]; unfold recomputed.
    rewrite mentorRatings_other_mentor.
    + unfold statsOf; cbn; f_equal; apply Qc_is_canon; reflexivity.
    + intros Hm; apply HM in Hm; apply in_map_iff in Hm as (u & Eu & Hu).
      exact (Hfresh u Hu Eu).
  - (* profile *)
    apply in_map_iff in Hin as (u & <- & Hin).
    destruct (_ =? _)%string; [|auto].
    exact (IH u Hin).
  - (* accept *)
    rewrite (recomputed_ext _ (sessions (state b))); [auto|].
    rewrite mentorRatings_app, mentorRatings_unrated by reflexivity.
    apply app_nil_r.
  - (* outcome *)
    rewrite (recomputed_ext _ (sessions (state b))); [auto|].
    apply mentorRatings_map_if; intros s Hs Es.
    cbn [offered] in Hoff.
    destruct Hoff as (me & s1 & _ & Hin1 & _ & Hout & ->).
    apply String.eqb_eq in Es.
    assert (s = s1) by (eapply uniqueIds_inj; eauto); subst s.
    unfold offersOutcome, isCompleted in Hout.
    apply andb_true_iff in Hout as [_ Hnc]; apply negb_true_iff in Hnc.
    destruct (Hwf s1 Hin1) as (_ & _ & Hnone).
    destruct Hnone as [Hm _];
      [intros C; apply SessionStatus_eqb_eq in C; congruence|].
    now rewrite !mentorRatings_unrated.
  - (* rating without recomputation *)
    rewrite (recomputed_ext _ (sessions (state b))); [auto|].
    apply mentorRatings_map_if; intros s Hs Es.
    apply String.eqb_eq in Es.
    destruct forMentor; [exfalso; exact (Hnone eq_refl s Hs Es)|].
    reflexivity.
  - (* rating the mentor *)
    rewrite updateUserStats_users in Hin; cbn [users setRating] in Hin.
    apply in_map_iff in Hin as (u & <- & Hin).
    apply find_some in Fs as [Hs0 Es0]; apply String.eqb_eq in Es0.
    destruct (String.eqb_spec (User.id u) (Session.mentorId s0)) as [E|E].
    + cbn [User.id User.with_stats statsOf User.xp User.ratingAvg
           User.ratingCount User.level].
      rewrite setRating_sessions, E; now destruct (recomputed _ _).
    + rewrite (recomputed_ext _ (sessions (state b))); [auto|].
      apply mentorRatings_map_if; intros s Hs Es.
      apply String.eqb_eq in Es.
      assert (s = s0) by (eapply uniqueIds_inj; eauto; congruence); subst s.
      rewrite !mentorRatings_not_mentor; auto.
  - (* blocking *)
    apply in_map_iff in Hin as (u & <- & Hin).
    destruct (_ =? _)%string; [|auto].
    exact (IH u Hin).
Qed.

Lemma statistics_never_drift_witness :
  map statsOf (users (state sampleRun))
  = map (fun u => recomputed (User.id u) (sessions (state sampleRun)))
        (users (state sampleRun)).
Proof.
  apply map_ext_in.
  exact (statistics_never_drift sampleRun sampleRun_reachableFresh).
Defined.

(** * The home feed *)

Lemma isOpen_true (q : Query.t) :
  isOpen q = true <-> Query.status q = QueryStatus.Open.
Proof. unfold isOpen; destruct (Query.status q); split; congruence. Qed.

Lemma feedFilter_true (toLowerCase : string -> string) (f : FeedFilters)
      (st : State) (q : Query.t) :
  feedFilter toLowerCase f st q = true ->
  isOpen q = true /\
  (onlyFresh f = true ->
   existsb (fun s => (Session.queryId s =? Query.id q)%string) (sessions st)
   = false).
Proof.
  unfold feedFilter.
  destruct (isOpen q); cbn [negb]; [|discriminate].
  destruct (_ && _); [discriminate|].
  destruct (_ && _); [discriminate|].
  destruct (onlyFresh f); cbn [andb]; [|intros _; split; [reflexivity|discriminate]].
  destruct (existsb _ (sessions st)); [discriminate|].
  intros _; split; reflexivity.
Qed.

Lemma feedFilter_noFilters (toLowerCase : string -> string) (st : State)
      (q : Query.t) :
  feedFilter toLowerCase noFilters st q = isOpen q.
Proof. unfold feedFilter; destruct (isOpen q); reflexivity. Qed.

Lemma homeFeed_In (toLowerCase : string -> string) (cu : User.t)
      (f : FeedFilters) (st : State) (q : Query.t) :
  In q (homeFeed toLowerCase cu f st) <->
  In q (queries st) /\ Query.askerId q <> User.id cu /\
  feedFilter toLowerCase f st q = true.
Proof.
  unfold homeFeed; cbn zeta.
  split.
  - intros H; apply (Permutation_in _ (sort_perm _ _)) in H.
    apply filter_In in H as [H Hf]; apply filter_In in H as [H Hn].
    apply negb_true_iff, String.eqb_neq in Hn; auto.
  - intros (H & Hn & Hf).
    apply (Permutation_in _ (Permutation_sym (sort_perm _ _))).
    apply filter_In; split; [|exact Hf].
    apply filter_In; split; [exact H|].
    now apply negb_true_iff, String.eqb_neq.
Qed.

(** The feed shows a reader only queries of the collection that somebody
    else asked and that are Open (with the fresh-only box ticked, only those
    no session references); with no filter set it shows all of these. *)
Theorem homeFeed_shows_open_queries_of_others
        (toLowerCase : string -> string) (cu : User.t) (f : FeedFilters)
        (st : State) (q : Query.t) :
  (In q (homeFeed toLowerCase cu f st) ->
   In q (queries st) /\ Query.askerId q <> User.id cu /\
   Query.status q = QueryStatus.Open /\
   (onlyFresh f = true ->
    forall s, In s (sessions st) -> Session.queryId s <> Query.id q)) /\
  (In q (homeFeed toLowerCase cu noFilters st) <->
   In q (queries st) /\ Query.askerId q <> User.id cu /\
   Query.status q = QueryStatus.Open).
Proof.
  split.
  - intros H; apply homeFeed_In in H as (Hq & Hn & Hf).
    apply feedFilter_true in Hf as [Ho Hfresh].
    repeat split; auto; [now apply isOpen_true|].
    intros Hon s Hs E.
    pose proof (Hfresh Hon) as Hex.
    assert (Hex' : existsb (fun s => (Session.queryId s =? Query.id q)%string)
                           (sessions st) = true)
      by (apply existsb_exists; exists s; split; [exact Hs | now apply String.eqb_eq]).
    congruence.
  - rewrite homeFeed_In, feedFilter_noFilters, isOpen_true; tauto.
Qed.

Lemma homeFeed_shows_open_queries_of_others_witness :
  homeFeed (fun s => s) alice noFilters sampleState = [bobsQuery] /\
  homeFeed (fun s => s) bob noFilters sampleState = [] /\
  homeFeed (fun s => s) alice noFilters (state acceptedApp) = [].
Proof.
  destruct (homeFeed_shows_open_queries_of_others
              (fun s => s) alice noFilters sampleState bobsQuery) as [_ H].
  assert (Hin : In bobsQuery (homeFeed (fun s => s) alice noFilters sampleState)).
  { apply H; split; [left; reflexivity|]; split; [discriminate | reflexivity]. }
  repeat split.
Defined.

(** In a run with fresh identifiers the Accept button never fails: for a
    query the feed shows to the current user, [acceptQuery] raises the
    success alert and creates the session from the current user to the
    asker, and no query with that id is in the feed afterwards. *)
Theorem accept_button_succeeds
        (toLowerCase : string -> string) (a : App) (cu : User.t)
        (f : FeedFilters) (q : Query.t) (env : AcceptEnv) :
  reachableFresh a ->
  currentUser a = Some cu ->
  In q (homeFeed toLowerCase cu f (state a)) ->
  let out := acceptQuery (Query.id q) env a in
  alerts out = [alertAccepted] /\
  (exists s, In s (sessions (state (app out))) /\
             Session.queryId s = Query.id q /\
             Session.mentorId s = User.id cu /\
             Session.menteeId s = Query.askerId q /\
             Session.status s = SessionStatus.Confirmed) /\
  (forall q', In q' (homeFeed toLowerCase cu f (state (app out))) ->
              Query.id q' <> Query.id q).
Proof.
  intros Hr Hcu Hfeed out; subst out.
  apply homeFeed_In in Hfeed as (Hq & Hn & Hf).
  apply feedFilter_true in Hf as [Ho _]; apply isOpen_true in Ho.
  destruct (reachableFresh_references a Hr) as (_ & HQ & _).
  assert (Hfree : find (fun s => (Session.queryId s =? Query.id q)%string)
                       (sessions (state a)) = None).
  { apply find_none_iff; intros s Hs; apply String.eqb_neq; intros E.
    assert (Hp : Query.status q = QueryStatus.InProgress)
      by (apply (in_progress_iff_referenced a Hr q Hq);
          rewrite <- E; now apply in_map).
    congruence. }
  unfold acceptQuery.
  rewrite Hcu, (find_query_unique a q Hq HQ), Hfree.
  apply String.eqb_neq in Hn; rewrite Hn.
  cbn [app alerts state setState sessions queries].
  split; [reflexivity|]; split.
  - eexists; split; [apply in_app_iff; right; left; reflexivity|].
    repeat split.
  - intros q' Hq' E.
    apply homeFeed_In in Hq' as (Hin' & _ & Hf').
    apply feedFilter_true in Hf' as [Ho' _]; apply isOpen_true in Ho'.
    cbn [queries] in Hin'; apply in_map_iff in Hin' as (q1 & <- & _).
    destruct (String.eqb_spec (Query.id q1) (Query.id q)) as [E1|E1];
      [discriminate Ho' | contradiction].
Qed.

Lemma beforeAccept_reachableFresh : reachableFresh beforeAccept.
Proof.
  unfold beforeAccept, sampleEvents, runEvents; cbn [firstn fold_left snd].
  apply (fresh_step _ 500).
  apply (fresh_step _ 400).
  apply (fresh_step _ 300).
  apply (fresh_step _ 200).
  apply (fresh_step _ 100).
  all: try exact I.
  - apply fresh_init.
  - intros u [].
  - intros u [<-|[]]; discriminate.
  - intros q [].
Qed.

Lemma accept_button_succeeds_witness :
  exists q,
    homeFeed (fun s => s) (User.mk "u1" "alice@pccoepune.org" "pw" "alice"
                                   None None [] EmptyString None Role.admin
                                   0 1 0%Qc 0 false)
             noFilters (state beforeAccept) = [q] /\
    alerts (acceptQuery (Query.id q) sampleEnv beforeAccept) = [alertAccepted].
Proof.
  eexists; split; [reflexivity|].
  eapply (accept_button_succeeds (fun s => s) beforeAccept _ noFilters).
  - exact beforeAccept_reachableFresh.
  - reflexivity.
  - left; reflexivity.
Defined.

(** ** The order of the feed *)

Lemma feedCompare_feedBefore (cu : User.t) (a b : Query.t) :
  notAfter (feedCompare cu) a b <-> feedBefore cu a b.
Proof.
  unfold notAfter, feedCompare, feedBefore.
  destruct (subjectMatch cu a), (subjectMatch cu b); cbn [Bool.eqb negb];
    rewrite num_le_0; split; intros H; try lia; tauto.
Qed.

Lemma feedBefore_total (cu : User.t) (a b : Query.t) :
  feedBefore cu a b \/ feedBefore cu b a.
Proof.
  unfold feedBefore.
  destruct (subjectMatch cu a), (subjectMatch cu b);
    destruct (Z.le_ge_cases (Query.createdAt a) (Query.createdAt b)); auto.
Qed.

Lemma feedBefore_trans (cu : User.t) (a b c : Query.t) :
  feedBefore cu a b -> feedBefore cu b c -> feedBefore cu a c.
Proof.
  unfold feedBefore.
  destruct (subjectMatch cu a), (subjectMatch cu b), (subjectMatch cu c);
    intros H1 H2; intuition (try discriminate; try lia).
Qed.

Lemma filter_twice {A : Type} (p q : A -> bool) (l : list A) :
  filter p (filter q l) = filter (fun x => q x && p x) l.
Proof.
  induction l as [|x l IH]; simpl; [reflexivity|].
  destruct (q x); simpl; [destruct (p x)|]; now rewrite IH.
Qed.

(** The feed lists the queries that pass the filters, each as often as the
    collection has it, those that match a strong subject of the reader
    first and, within each group, the most recent first. *)
Theorem homeFeed_order (toLowerCase : string -> string) (cu : User.t)
        (f : FeedFilters) (st : State) :
  Permutation
    (homeFeed toLowerCase cu f st)
    (filter (fun q => negb (Query.askerId q =? User.id cu)%string
                      && feedFilter toLowerCase f st q)
            (queries st)) /\
  StronglySorted (feedBefore cu) (homeFeed toLowerCase cu f st) /\
  (forall i j a b,
      (i < j)%nat ->
      nth_error (homeFeed toLowerCase cu f st) i = Some a ->
      nth_error (homeFeed toLowerCase cu f st) j = Some b ->
      (subjectMatch cu b = true -> subjectMatch cu a = true) /\
      (subjectMatch cu a = subjectMatch cu b ->
       Query.createdAt b <= Query.createdAt a)).
Proof.
  assert (Hsorted : StronglySorted (feedBefore cu) (homeFeed toLowerCase cu f st)).
  { unfold homeFeed; cbn zeta.
    set (l := filter _ (filter _ (queries st))).
    assert (Hs : StronglySorted (notAfter (feedCompare cu))
                                (sort (feedCompare cu) l)).
    { apply sort_sorted.
      - intros x y; rewrite !feedCompare_feedBefore; apply feedBefore_total.
      - intros x y z; rewrite !feedCompare_feedBefore; apply feedBefore_trans. }
    induction Hs as [|x l' Hl IH Hall]; constructor; [exact IH|].
    eapply Forall_impl; [|exact Hall].
    intros y Hy; now apply feedCompare_feedBefore. }
  split; [|split; [exact Hsorted|]].
  - unfold homeFeed; cbn zeta.
    eapply perm_trans; [apply sort_perm|].
    rewrite filter_twice; apply Permutation_refl.
  - intros i j a b Hij Hi Hj.
    pose proof (StronglySorted_nth _ _ Hsorted i j a b Hij Hi Hj) as H.
    unfold feedBefore in H.
    destruct (subjectMatch cu a), (subjectMatch cu b);
      destruct H as [[H1 H2]|[H1 H2]]; try discriminate; split; auto;
      intros; discriminate.
Qed.

Lemma homeFeed_order_witness :
  map Query.id (homeFeed (fun s => s) alice noFilters feedState)
    = ["qc"; "qa"; "qb"] /\
  map Query.id (homeFeed (fun s => s) bob noFilters feedState) = [].
Proof.
  destruct (homeFeed_order (fun s => s) alice noFilters feedState)
    as (_ & _ & H).
  split; [|reflexivity].
  destruct (H 0%nat 1%nat
              (Query.mk "qc" "Heaps" "Heapify" ["DSA"] "Any"
                        PreferredMode.Either "Evening" QueryStatus.Open 20 "u2")
              (Query.mk "qa" "Graphs" "BFS" ["DSA"] "Any"
                        PreferredMode.Either "Evening" QueryStatus.Open 10 "u2"))
    as [_ Hrecent]; [lia | reflexivity | reflexivity|].
  pose proof (Hrecent eq_refl) as Hle.
  reflexivity.
Defined.

(** * The profile page and the post page *)

Lemma arrayIncludes_In (l : list string) (x : string) :
  arrayIncludes l x = true <-> In x l.
Proof.
  unfold arrayIncludes; rewrite existsb_exists; split.
  - intros (y & Hy & E); apply String.eqb_eq in E; now subst.
  - intros H; exists x; split; [exact H | apply String.eqb_refl].
Qed.

Lemma filter_out_In (x y : string) (l : list string) :
  In y (filter (fun s => negb (s =? x)%string) l) <-> In y l /\ y <> x.
Proof.
  rewrite filter_In, negb_true_iff, String.eqb_neq; tauto.
Qed.

(** Ticking a subject flips exactly that subject: afterwards it is chosen
    iff it was not, every other subject is chosen iff it was, and a list
    without repetition stays without repetition.  The tags of a new query
    are ticked the same way. *)
Theorem toggleSubject_flips (subj : string) (prev : list string) :
  toggleTag subj prev = toggleSubject subj prev /\
  (In subj (toggleSubject subj prev) <-> ~ In subj prev) /\
  (forall x, x <> subj -> (In x (toggleSubject subj prev) <-> In x prev)) /\
  (NoDup prev -> NoDup (toggleSubject subj prev)).
Proof.
  split; [reflexivity|].
  unfold toggleSubject.
  destruct (arrayIncludes prev subj) eqn:E.
  - apply arrayIncludes_In in E.
    split; [|split].
    + rewrite filter_out_In; tauto.
    + intros x Hx; rewrite filter_out_In; tauto.
    + apply NoDup_filter.
  - assert (Hn : ~ In subj prev)
      by (intros Hin; apply arrayIncludes_In in Hin; congruence).
    split; [|split].
    + rewrite in_app_iff; cbn; tauto.
    + intros x Hx; rewrite in_app_iff; cbn; split; [|tauto].
      intros [Hin|[Hin|[]]]; [exact Hin | congruence].
    + intros Hnd; now apply NoDup_snoc.
Qed.

Lemma toggleSubject_flips_witness :
  toggleSubject "OS" ["DSA"; "OS"; "CN"] = ["DSA"; "CN"] /\
  toggleSubject "OS" ["DSA"; "CN"] = ["DSA"; "CN"; "OS"] /\
  NoDup (toggleSubject "OS" ["DSA"; "OS"; "CN"]).
Proof.
  destruct (toggleSubject_flips "OS" ["DSA"; "OS"; "CN"]) as (_ & _ & _ & Hnd).
  split; [reflexivity|]; split; [reflexivity|].
  apply Hnd; repeat constructor; cbn; intuition discriminate.
Defined.

(** Adding a custom subject appends it once: an empty text and a subject
    already chosen change nothing, and a list without repetition stays
    without repetition. *)
Theorem handleAddCustom_appends_once (val : string) (subjects : list string) :
  (val = EmptyString \/ In val subjects ->
   handleAddCustom val subjects = subjects) /\
  (val <> EmptyString -> ~ In val subjects ->
   handleAddCustom val subjects = (subjects ++ [val])%list) /\
  (NoDup subjects -> NoDup (handleAddCustom val subjects)).
Proof.
  unfold handleAddCustom, nonEmpty.
  destruct (String.eqb_spec val EmptyString) as [E|E]; cbn [negb].
  - split; [|split]; auto; intros; congruence.
  - destruct (arrayIncludes subjects val) eqn:I; cbn [negb].
    + apply arrayIncludes_In in I.
      split; [|split]; auto; intros; tauto.
    + assert (Hn : ~ In val subjects)
        by (intros Hin; apply arrayIncludes_In in Hin; congruence).
      split; [|split]; auto; [intros; tauto|].
      intros Hnd; now apply NoDup_snoc.
Qed.

Lemma handleAddCustom_appends_once_witness :
  handleAddCustom "Compilers" ["DSA"] = ["DSA"; "Compilers"] /\
  handleAddCustom "DSA" ["DSA"] = ["DSA"] /\
  handleAddCustom EmptyString ["DSA"] = ["DSA"].
Proof.
  destruct (handleAddCustom_appends_once "Compilers" ["DSA"]) as (_ & Hadd & _).
  destruct (handleAddCustom_appends_once "DSA" ["DSA"]) as (Hsame & _).
  destruct (handleAddCustom_appends_once EmptyString ["DSA"]) as (Hempty & _).
  split; [apply Hadd; [discriminate | intros [H|[]]; discriminate]|].
  split; [apply Hsame; right; now left | apply Hempty; now left].
Defined.

(** ** Saving the profile *)

(** Saving a profile without a name, a year or a strong subject raises the
    alert and changes nothing.  A complete profile is stored in the current
    user, the page goes home, and from then on a login of that user (not
    blocked) goes home too instead of to the profile page. *)
Theorem handleSave_completes_profile (form : ProfileUpdates) (a : App)
        (cu : User.t) :
  currentUser a = Some cu ->
  uniqueIds User.email (users (state a)) ->
  User.isBlocked cu = false ->
  (pu_name form = EmptyString \/ pu_year form = EmptyString \/
   pu_strongSubjects form = [] ->
   handleSave form a = mkOutcome a [alertProfileRequired]) /\
  (pu_name form <> EmptyString -> pu_year form <> EmptyString ->
   pu_strongSubjects form <> [] ->
   let saved := app (handleSave form a) in
   let again :=
     app (handleLogin (User.email cu) (User.password cu)
                      (app (handleLogout saved))) in
   alerts (handleSave form a) = [] /\
   route saved = Route.home /\
   currentUser saved = Some (mergeProfile cu form) /\
   currentUserId again = Some (User.id cu) /\
   route again = Route.home).
Proof.
  intros Hcu Hu Hb; unfold handleSave, nonEmpty; split.
  - intros [E|[E|E]]; rewrite E; cbn; [reflexivity | |].
    + now rewrite orb_true_r.
    + now rewrite orb_true_r.
  - intros Hn Hy Hs.
    apply String.eqb_neq in Hn, Hy; rewrite Hn, Hy.
    destruct (pu_strongSubjects form) as [|t ts] eqn:Es; [congruence|].
    cbn [negb orb List.length Nat.eqb].
    unfold updateProfile; rewrite Hcu.
    cbn [app alerts state setState setRoute route users currentUserId].
    set (f := fun u => if (User.id u =? User.id cu)%string
                       then mergeProfile u form else u).
    assert (Hid : forall x, User.id (f x) = User.id x)
      by (intros x; unfold f; destruct (User.id x =? User.id cu)%string;
          reflexivity).
    assert (Hem : forall x, User.email (f x) = User.email x)
      by (intros x; unfold f; destruct (User.id x =? User.id cu)%string;
          reflexivity).
    assert (Hfc : f cu = mergeProfile cu form)
      by (unfold f; now rewrite String.eqb_refl).
    assert (Hcur : currentUser
                     (mkApp (mkState (map f (users (state a))) (queries (state a))
                                     (sessions (state a)) (notifications (state a)))
                            (currentUserId a) Route.home (authMode a))
                   = Some (mergeProfile cu form)).
    { unfold currentUser in Hcu |- *; cbn [currentUserId state users].
      destruct (currentUserId a) as [c|]; [|discriminate].
      rewrite find_map_same by (intros x; now rewrite Hid).
      now rewrite Hcu; cbn; rewrite Hfc. }
    split; [reflexivity|]; split; [reflexivity|]; split; [exact Hcur|].
    assert (Hin' : In (mergeProfile cu form) (map f (users (state a))))
      by (rewrite <- Hfc; apply in_map; now apply currentUser_In).
    assert (Hu' : uniqueIds User.email (map f (users (state a))))
      by (unfold uniqueIds; rewrite map_map;
          erewrite map_ext; [exact Hu | exact Hem]).
    pose proof (find_login _ _ Hin' Hu') as F.
    cbn [mergeProfile User.email User.password] in F.
    unfold handleLogin, handleLogout;
      cbn [app state setState setRoute setCurrentUserId users].
    rewrite F.
    cbn [mergeProfile User.isBlocked User.year User.strongSubjects User.id].
    rewrite Hb, Hy, Es; split; reflexivity.
Qed.

Lemma handleSave_completes_profile_witness :
  handleSave (mkProfileUpdates "Bob" EmptyString "CS" EmptyString ["OS"])
             acceptedAppBob
    = mkOutcome acceptedAppBob [alertProfileRequired] /\
  route (app (handleSave (mkProfileUpdates "Bob" "2nd Year" "CS" EmptyString
                                           ["OS"])
                         acceptedAppBob)) = Route.home.
Proof.
  assert (Hcu : currentUser acceptedAppBob = Some bob) by reflexivity.
  assert (Hu : uniqueIds User.email (users (state acceptedAppBob)))
    by (repeat constructor; simpl; intuition discriminate).
  split.
  - destruct (handleSave_completes_profile
                (mkProfileUpdates "Bob" EmptyString "CS" EmptyString ["OS"])
                acceptedAppBob bob Hcu Hu eq_refl) as [H _].
    apply H; right; left; reflexivity.
  - destruct (handleSave_completes_profile
                (mkProfileUpdates "Bob" "2nd Year" "CS" EmptyString ["OS"])
                acceptedAppBob bob Hcu Hu eq_refl) as [_ H].
    apply H; discriminate.
Defined.

(** ** Posting a query *)

(** A query form without a title, a description or a tag raises the alert
    and changes nothing.  A complete form puts the new query, Open and asked
    by the current user, at the front of the collection; the feed never
    shows it to its asker and, with no filter set, shows it to every other
    reader. *)
Theorem handleSubmit_posts_for_the_others
        (toLowerCase : string -> string) (data : QueryData)
        (newId : string) (now : Z) (a : App) (cu : User.t) :
  currentUser a = Some cu ->
  (qd_title data = EmptyString \/ qd_description data = EmptyString \/
   qd_subjectTags data = [] ->
   handleSubmit data newId now a = mkOutcome a [alertQueryRequired]) /\
  (qd_title data <> EmptyString -> qd_description data <> EmptyString ->
   qd_subjectTags data <> [] ->
   let out := handleSubmit data newId now a in
   let posted :=
     Query.mk newId (qd_title data) (qd_description data)
              (qd_subjectTags data) (qd_preferredMentorType data)
              (qd_preferredMode data) (qd_timePreference data)
              QueryStatus.Open now (User.id cu) in
   alerts out = [alertLaunched] /\
   route (app out) = Route.home /\
   queries (state (app out)) = posted :: queries (state a) /\
   (forall f, ~ In posted (homeFeed toLowerCase cu f (state (app out)))) /\
   (forall reader, User.id reader <> User.id cu ->
                   In posted (homeFeed toLowerCase reader noFilters
                                       (state (app out))))).
Proof.
  intros Hcu; unfold handleSubmit, nonEmpty; split.
  - intros [E|[E|E]]; rewrite E; cbn; [reflexivity | |];
      now rewrite orb_true_r.
  - intros Hn Hy Hs.
    apply String.eqb_neq in Hn, Hy; rewrite Hn, Hy.
    assert (Hlen : (List.length (qd_subjectTags data) =? 0)%nat = false)
      by (destruct (qd_subjectTags data); [congruence | reflexivity]).
    rewrite Hlen; cbn [negb orb].
    unfold createQuery; rewrite Hcu.
    cbn [app alerts state setState setRoute route queries List.app].
    split; [reflexivity|]; split; [reflexivity|]; split; [reflexivity|].
    split.
    + intros f Hin; apply homeFeed_In in Hin as (_ & Hne & _).
      now apply Hne.
    + intros reader Hr; apply homeFeed_In.
      split; [left; reflexivity|].
      split; [cbn; congruence|].
      now rewrite feedFilter_noFilters.
Qed.

Lemma handleSubmit_posts_for_the_others_witness :
  alerts (handleSubmit (mkQueryData "Heaps" EmptyString ["DSA"] "Any"
                                    PreferredMode.Either "Evening")
                       "q2" 7000 acceptedAppBob) = [alertQueryRequired] /\
  map Query.id
      (homeFeed (fun s => s) alice noFilters
                (state (app (handleSubmit
                               (mkQueryData "Heaps" "Heapify" ["DSA"] "Any"
                                            PreferredMode.Either "Evening")
                               "q2" 7000 acceptedAppBob)))) = ["q2"].
Proof.
  assert (Hcu : currentUser acceptedAppBob = Some bob) by reflexivity.
  split.
  - destruct (handleSubmit_posts_for_the_others
                (fun s => s)
                (mkQueryData "Heaps" EmptyString ["DSA"] "Any"
                             PreferredMode.Either "Evening")
                "q2" 7000 acceptedAppBob bob Hcu) as [H _].
    rewrite H; [reflexivity | right; left; reflexivity].
  - destruct (handleSubmit_posts_for_the_others
                (fun s => s)
                (mkQueryData "Heaps" "Heapify" ["DSA"] "Any"
                             PreferredMode.Either "Evening")
                "q2" 7000 acceptedAppBob bob Hcu) as [_ H].
    destruct H as (_ & _ & _ & _ & Hshown); try discriminate.
    pose proof (Hshown alice) as Hin.
    reflexivity.
Defined.

(** * What a rating is worth *)

Lemma sumZ_app (l1 l2 : list Z) : sumZ (l1 ++ l2) = sumZ l1 + sumZ l2.
Proof.
  induction l1 as [|x l1 IH]; cbn [sumZ List.app fold_right]; [reflexivity|].
  fold (sumZ (l1 ++ l2)); fold (sumZ l1); lia.
Qed.

Lemma mentorRatings_rated (m : string) (s0 : Session.t) (r : Z) :
  Session.status s0 = SessionStatus.Completed ->
  Session.mentorId s0 = m ->
  mentorRatings m [Session.with_ratingForMentor s0 r] = [r].
Proof.
  intros Hst Hm; unfold mentorRatings.
  cbn [flat_map Session.with_ratingForMentor Session.ratingForMentor
       Session.status Session.mentorId].
  now rewrite Hst, Hm, String.eqb_refl.
Qed.

Lemma rating_counts_once (m : string) (s0 : Session.t) (r : Z)
      (ss : list Session.t) :
  In s0 ss -> uniqueIds Session.id ss ->
  Session.status s0 = SessionStatus.Completed ->
  Session.ratingForMentor s0 = None ->
  Session.mentorId s0 = m ->
  let ss' :=
    map (fun s => if (Session.id s =? Session.id s0)%string
                  then Session.with_ratingForMentor s r else s) ss in
  sumZ (mentorRatings m ss') = sumZ (mentorRatings m ss) + r /\
  List.length (mentorRatings m ss') = S (List.length (mentorRatings m ss)).
Proof.
  intros Hin Hu Hst Hnone Hm; cbn zeta.
  induction ss as [|x ss IH]; [contradiction|].
  unfold uniqueIds in Hu; cbn [map] in Hu.
  inversion Hu as [|? ? Hnotin Hu']; subst.
  cbn [map]; rewrite mentorRatings_cons, (mentorRatings_cons _ x).
  rewrite !sumZ_app, !length_app.
  destruct Hin as [->|Hin].
  - rewrite String.eqb_refl.
    rewrite (map_if_none (fun s => (Session.id s =? Session.id s0)%string)).
    2: { intros y Hy; apply String.eqb_neq; intros E; apply Hnotin.
         rewrite <- E; now apply in_map. }
    rewrite (mentorRatings_unrated _ s0 Hnone).
    rewrite (mentorRatings_rated _ s0 r Hst eq_refl).
    cbn [sumZ fold_right List.length]; split; lia.
  - destruct (String.eqb_spec (Session.id x) (Session.id s0)) as [E|E].
    + exfalso; apply Hnotin; rewrite E; now apply in_map.
    + destruct (IH Hin Hu') as [IHs IHl]; rewrite IHs, IHl; split; lia.
Qed.

(** When the stored statistics of a mentor agree with the sessions, the
    first rating [r] of one of their Completed sessions adds 10 x r to their
    xp and one to their rating count, the level becomes the tier of the new
    xp, and the rating average becomes the new sum of ratings (the old xp
    over 10, plus [r]) divided by the new count; the other fields of the
    user stay as they were. *)
Theorem mentor_rating_adds_xp (a : App) (s0 : Session.t) (r : Z) (u : User.t) :
  In s0 (sessions (state a)) ->
  uniqueIds Session.id (sessions (state a)) ->
  Session.status s0 = SessionStatus.Completed ->
  Session.ratingForMentor s0 = None ->
  In u (users (state a)) ->
  User.id u = Session.mentorId s0 ->
  statsOf u = recomputed (User.id u) (sessions (state a)) ->
  let after := app (rateSession (Session.id s0) r true a) in
  In (User.mk (User.id u) (User.email u) (User.password u) (User.name u)
              (User.year u) (User.branch u) (User.strongSubjects u)
              (User.bio u) (User.avatar u) (User.role u)
              (User.xp u + 10 * r)
              (computeLevel (num (User.xp u + 10 * r)))
              (num (User.xp u / 10 + r) / num (User.ratingCount u + 1))%Qc
              (User.ratingCount u + 1)
              (User.isBlocked u))
     (users (state after)).
Proof.
  intros Hs0 Huniq Hst Hnone Hu Hid Hstats; cbn zeta.
  unfold rateSession; rewrite (find_unique Session.id _ s0 Huniq Hs0).
  cbn [app state setState].
  rewrite updateUserStats_users, setRating_sessions; cbn [users setRating].
  destruct (rating_counts_once (Session.mentorId s0) s0 r (sessions (state a))
              Hs0 Huniq Hst Hnone eq_refl) as [Hsum Hlen].
  set (ss' := map _ (sessions (state a))) in *.
  set (f := fun x : User.t => if (User.id x =? Session.mentorId s0)%string
                              then _ else x).
  assert (Hxp : User.xp u = sumZ (mentorRatings (Session.mentorId s0)
                                                 (sessions (state a))) * 10).
  { apply (f_equal st_xp) in Hstats; cbn [statsOf st_xp recomputed] in Hstats.
    now rewrite Hstats, Hid, sumZ_map_scale. }
  assert (Hcount : User.ratingCount u
                   = Z.of_nat (List.length (mentorRatings (Session.mentorId s0)
                                                          (sessions (state a))))).
  { apply (f_equal st_ratingCount) in Hstats.
    cbn [statsOf st_ratingCount recomputed] in Hstats.
    now rewrite Hstats, Hid. }
  assert (E : f u
              = User.mk (User.id u) (User.email u) (User.password u)
                        (User.name u) (User.year u) (User.branch u)
                        (User.strongSubjects u) (User.bio u) (User.avatar u)
                        (User.role u) (User.xp u + 10 * r)
                        (computeLevel (num (User.xp u + 10 * r)))
                        (num (User.xp u / 10 + r)
                         / num (User.ratingCount u + 1))%Qc
                        (User.ratingCount u + 1) (User.isBlocked u)).
  { unfold f; rewrite Hid, String.eqb_refl.
    cbn [User.with_stats recomputed st_xp st_ratingAvg st_ratingCount st_level].
    rewrite sumZ_map_scale, Hsum, Hlen, Hxp, Hcount, Z.div_mul by lia.
    replace (0 <? Z.of_nat (S (List.length
                                 (mentorRatings (Session.mentorId s0)
                                                (sessions (state a))))))
      with true by (symmetry; apply Z.ltb_lt; lia).
    replace (Z.of_nat (S (List.length
                            (mentorRatings (Session.mentorId s0)
                                           (sessions (state a))))))
      with (Z.of_nat (List.length
                        (mentorRatings (Session.mentorId s0)
                                       (sessions (state a)))) + 1) by lia.
    replace ((sumZ (mentorRatings (Session.mentorId s0) (sessions (state a)))
              + r) * 10)
      with (sumZ (mentorRatings (Session.mentorId s0) (sessions (state a)))
            * 10 + 10 * r) by lia.
    unfold User.with_stats; now rewrite Hid. }
  rewrite <- E; now apply in_map.
Qed.

Lemma mentor_rating_adds_xp_witness :
  exists u',
    In u' (users (state (app (rateSession "s1" 4 true completedApp)))) /\
    User.id u' = "u1" /\ User.xp u' = 40 /\ User.ratingCount u' = 1 /\
    User.ratingAvg u' = num 4 /\ User.level u' = 1.
Proof.
  assert (Hs : In (Session.with_status sampleSession SessionStatus.Completed)
                  (sessions (state completedApp))) by (left; reflexivity).
  assert (Hu : uniqueIds Session.id (sessions (state completedApp)))
    by (repeat constructor; simpl; tauto).
  assert (Hin : In alice (users (state completedApp))) by (left; reflexivity).
  pose proof (mentor_rating_adds_xp completedApp _ 4 alice Hs Hu eq_refl eq_refl
                Hin eq_refl eq_refl) as Hu'.
  eexists; split; [exact Hu'|].
  split; [reflexivity|]; split; [reflexivity|]; split; [reflexivity|].
  split; [apply Qc_is_canon; reflexivity | reflexivity].
Defined.

(** * More on the leaderboard *)

Lemma StronglySorted_impl {A : Type} (R R' : A -> A -> Prop) (l : list A) :
  (forall a b, R a b -> R' a b) -> StronglySorted R l -> StronglySorted R' l.
Proof.
  intros H Hs; induction Hs as [|x l Hl IH Hall]; constructor; [exact IH|].
  eapply Forall_impl; [|exact Hall]; auto.
Qed.

(** Two sorted arrangements of the same elements are the same list, when
    elements that rank before each other are equal. *)
Lemma sorted_arrangement_unique {A : Type} (R : A -> A -> Prop) (l1 : list A) :
  forall l2,
    StronglySorted R l1 -> StronglySorted R l2 -> Permutation l1 l2 ->
    (forall x y, In x l1 -> In y l1 -> R x y -> R y x -> x = y) ->
    l1 = l2.
Proof.
  induction l1 as [|x t1 IH]; intros l2 H1 H2 Hp Hanti.
  - now apply Permutation_nil in Hp.
  - destruct l2 as [|y t2];
      [apply Permutation_sym, Permutation_nil in Hp; discriminate|].
    inversion H1 as [|? ? Ht1 Hall1]; subst.
    inversion H2 as [|? ? Ht2 Hall2]; subst.
    rewrite Forall_forall in Hall1, Hall2.
    assert (Hy : In y (x :: t1))
      by (apply (Permutation_in _ (Permutation_sym Hp)); now left).
    assert (Hx : In x (y :: t2)) by (apply (Permutation_in _ Hp); now left).
    assert (E : x = y).
    { destruct Hy as [Hy|Hy]; [exact Hy|].
      destruct Hx as [Hx|Hx]; [now symmetry|].
      apply Hanti; [now left | now right | now apply Hall1 | now apply Hall2]. }
    subst y; f_equal.
    apply IH; auto.
    + now apply Permutation_cons_inv with x.
    + intros a b Ha Hb; apply Hanti; now right.
Qed.

Lemma ranksBefore_sessions (localeCompare : string -> string -> Z)
      (st1 st2 : State) (a b : User.t) :
  sessions st1 = sessions st2 ->
  ranksBefore localeCompare st1 a b -> ranksBefore localeCompare st2 a b.
Proof.
  intros E; unfold ranksBefore; now rewrite E.
Qed.

(** The ranking depends on the users and the sessions only, not on the
    order in which the users are stored: for a consistent collation, two
    states with the same sessions and the same users in any order, whose
    ids are unique and told apart by the collation, have the same
    leaderboard. *)
Theorem leaderboard_ignores_storage_order
        (localeCompare : string -> string -> Z) (st1 st2 : State) :
  consistentCollation localeCompare ->
  sessions st1 = sessions st2 ->
  Permutation (users st1) (users st2) ->
  uniqueIds User.id (users st1) ->
  separates localeCompare (map User.id (users st1)) ->
  leaderboard localeCompare st1 = leaderboard localeCompare st2.
Proof.
  intros Hc Es Hp Hu Hsep.
  apply (sorted_arrangement_unique (ranksBefore localeCompare st1)).
  - now apply leaderboard_sorted.
  - apply StronglySorted_impl with (ranksBefore localeCompare st2);
      [|now apply leaderboard_sorted].
    intros a b; now apply ranksBefore_sessions.
  - unfold leaderboard.
    eapply perm_trans; [apply sort_perm|].
    eapply perm_trans; [exact Hp|].
    apply Permutation_sym, sort_perm.
  - intros x y Hx Hy.
    apply ranksBefore_antisym; auto.
    + exact (Permutation_in _ (sort_perm _ (users st1)) Hx).
    + exact (Permutation_in _ (sort_perm _ (users st1)) Hy).
Qed.

Lemma leaderboard_ignores_storage_order_witness :
  leaderboard codeUnitOrder (mkState [carol; bob; alice] []
                                     (sessions mentorsState) [])
  = leaderboard codeUnitOrder mentorsState.
Proof.
  apply leaderboard_ignores_storage_order.
  - exact codeUnitOrder_consistent.
  - reflexivity.
  - apply Permutation_sym.
    apply (perm_trans (l' := [bob; carol; alice]));
      [apply perm_skip, perm_swap | apply perm_swap].
  - repeat constructor; simpl; intuition discriminate.
  - apply codeUnitOrder_separates.
Defined.

Lemma insert_map {A : Type} (c c' : A -> A -> Qc) (f : A -> A) (x : A)
      (l : list A) :
  (forall a b, c' (f a) (f b) = c a b) ->
  insert c' (f x) (map f l) = map f (insert c x l).
Proof.
  intros H; induction l as [|y l IH]; cbn [insert map]; [reflexivity|].
  rewrite H; destruct (Qle_bool (c x y) 0); cbn [map]; [reflexivity|].
  now rewrite IH.
Qed.

Lemma sort_map {A : Type} (c c' : A -> A -> Qc) (f : A -> A) (l : list A) :
  (forall a b, c' (f a) (f b) = c a b) ->
  sort c' (map f l) = map f (sort c l).
Proof.
  intros H; induction l as [|x l IH]; cbn [sort map fold_right]; [reflexivity|].
  fold (sort c' (map f l)); fold (sort c l).
  rewrite IH; now apply insert_map.
Qed.

(** Blocking does not touch the ranking: after the block button the
    leaderboard lists the same users at the same ranks, the blocked one
    included, only with the flag changed. *)
Theorem leaderboard_lists_blocked_users
        (localeCompare : string -> string -> Z) (userId : string) (a : App) :
  leaderboard localeCompare (state (app (toggleBlockUser userId a)))
  = map (fun u => if (User.id u =? userId)%string
                  then User.toggle_blocked u else u)
        (leaderboard localeCompare (state a)) /\
  map User.id (leaderboard localeCompare
                           (state (app (toggleBlockUser userId a))))
  = map User.id (leaderboard localeCompare (state a)).
Proof.
  assert (E : leaderboard localeCompare
                          (state (app (toggleBlockUser userId a)))
              = map (fun u => if (User.id u =? userId)%string
                              then User.toggle_blocked u else u)
                    (leaderboard localeCompare (state a))).
  { unfold leaderboard, toggleBlockUser; cbn [app state setState users].
    apply sort_map; intros x y.
    unfold compareUsers, completedAsMentor; cbn [sessions].
    destruct (User.id x =? userId)%string, (User.id y =? userId)%string;
      reflexivity. }
  split; [exact E|].
  rewrite E; apply map_map_if; reflexivity.
Qed.

(** * The outcome of a session *)

(** On the sessions page Completed is final and No-show is not.  No event
    the pages offer takes a session out of Completed; a No-show session
    still shows the outcome buttons, at any time; a Confirmed session shows
    no button before its scheduled time. *)
Theorem completed_is_final :
  (forall a now e,
      reachable a -> offered now a e ->
      exists kept added,
        sessions (state (app (handle e a))) = (kept ++ added)%list /\
        Forall2 (fun s s' =>
                   Session.id s' = Session.id s /\
                   (Session.status s = SessionStatus.Completed ->
                    Session.status s' = SessionStatus.Completed))
                (sessions (state a)) kept) /\
  (forall now s, Session.status s = SessionStatus.NoShow ->
                 offersOutcome now s = true) /\
  (forall now s role,
      Session.status s = SessionStatus.Confirmed -> now < Session.dateTime s ->
      offersOutcome now s = false /\ offersRating role s = false).
Proof.
  split; [|split].
  - intros a now e Hr Hoff.
    destruct (reachable_invariant a Hr) as [_ Hu].
    pose proof (handle_sessionsChange e a) as Hc.
    remember (sessions (state (app (handle e a)))) as ss' eqn:E; clear E.
    assert (Hrefl : forall l : list Session.t,
               Forall2 (fun s s' =>
                          Session.id s' = Session.id s /\
                          (Session.status s = SessionStatus.Completed ->
                           Session.status s' = SessionStatus.Completed)) l l)
      by (intros l; induction l; constructor; auto).
    destruct Hc as [e | queryId env mentorId menteeId dateTime mode location
                    | sessionId role didHappen | sessionId r forMentor].
    + exists (sessions (state a)), []; split; [now rewrite app_nil_r | apply Hrefl].
    + eexists _, _; split; [reflexivity | apply Hrefl].
    + cbn [offered] in Hoff.
      destruct Hoff as (me & s0 & _ & Hin0 & _ & Hout & ->).
      eexists _, []; split; [now rewrite app_nil_r|].
      apply Forall2_map_self; intros x Hx.
      destruct (String.eqb_spec (Session.id x) (Session.id s0)) as [Ex|Ex];
        [|split; auto].
      assert (x = s0) by (eapply uniqueIds_inj; eauto); subst x.
      split; [reflexivity|]; intros Hc.
      unfold offersOutcome, isCompleted in Hout.
      apply andb_true_iff in Hout as [_ Hnc]; apply negb_true_iff in Hnc.
      apply SessionStatus_eqb_eq in Hc; congruence.
    + eexists _, []; split; [now rewrite app_nil_r|].
      apply Forall2_map_self; intros x _.
      destruct (_ =? _)%string; [destruct forMentor|]; split; auto.
  - intros now s E; unfold offersOutcome, isFuture, isCompleted; rewrite E.
    cbn; now rewrite andb_false_r.
  - intros now s role E Hlt; unfold offersOutcome, offersRating, isFuture,
      isCompleted; rewrite E; cbn.
    apply Z.ltb_lt in Hlt; rewrite Hlt; split; reflexivity.
Qed.

Lemma completed_is_final_witness :
  offersOutcome 4000000
    (Session.with_status sampleSession SessionStatus.NoShow) = true /\
  offersOutcome 5000 sampleSession = false.
Proof.
  destruct completed_is_final as (_ & Hnoshow & Hearly).
  split; [now apply Hnoshow|].
  now apply (Hearly 5000 sampleSession SessionRole.mentor).
Defined.

Lemma markSessionComplete_last_wins_witness :
  app (markSessionComplete "s1" SessionRole.mentee false completedApp)
    = app (markSessionComplete "s1" SessionRole.mentee false acceptedApp) /\
  map Session.status
      (sessions (state (app (markSessionComplete "s1" SessionRole.mentee false
                                                 completedApp))))
    = [SessionStatus.NoShow].
Proof.
  destruct (markSessionComplete_last_wins acceptedApp "s1" SessionRole.mentor
              SessionRole.mentee true false) as (Htwice & _).
  split; [exact Htwice | reflexivity].
Defined.
